(** * Comic Chat IRC server: session/channel state machine

    A shallow embedding of [src/server.ts] (class [IRCServer]) and the
    properties of its registration, membership and routing logic.

    Modelling conventions.
    - A JavaScript string is a [string]: the server decodes its input as
      latin1, so every code unit is one byte.
    - An optional field ([nickname?: string]) is an [option string];
      [undefined] is [None].
    - [Map] and [Set] keep insertion order, which the code observes when
      it iterates them; they are association lists and duplicate-free
      lists with the JavaScript operations.
    - A connection is one [net.Socket] together with the [IRCClient]
      object created for it in the same callback.  Both are heap objects
      compared by reference; one natural number names the pair.  The
      objects live in two stores indexed by that number, [heap] for the
      client records and [sockets] for the sockets, so that an object
      outlives its registry entry exactly as it does in the source.
    - [console.log] calls are not modelled. *)

From Stdlib Require Import String Ascii List Bool Arith Lia DecimalString.
Import ListNotations.
Open Scope list_scope.
Open Scope string_scope.

(** ** JavaScript string primitives used by the server *)

Module JS.

Definition space : ascii := " "%char.

(** [s.split(' ')] *)
Fixpoint split (s : string) : list string :=
  match s with
  | EmptyString => [EmptyString]
  | String c r =>
      if Ascii.eqb c space then EmptyString :: split r
      else match split r with
           | h :: t => String c h :: t
           | [] => [String c EmptyString]
           end
  end.

(** [a.join(' ')] on an array of strings *)
Fixpoint join (l : list string) : string :=
  match l with
  | [] => EmptyString
  | [x] => x
  | x :: r => x ++ " " ++ join r
  end.

(** [a.slice(n)] *)
Definition slice {A} (n : nat) (l : list A) : list A := skipn n l.

(** [s.substring(1)] *)
Definition substring1 (s : string) : string :=
  match s with
  | EmptyString => EmptyString
  | String _ r => r
  end.

(** [s.startsWith(p)] *)
Definition startsWith (s p : string) : bool := String.prefix p s.

(** Truthiness of an optional string: [undefined] and [''] are falsy. *)
Definition truthy (o : option string) : bool :=
  match o with
  | Some (String _ _) => true
  | _ => false
  end.

(** [o || d] *)
Definition orElse (o : option string) (d : string) : string :=
  match o with
  | Some (String a r) => String a r
  | _ => d
  end.

(** [`${o}`]: interpolation of a possibly undefined value. *)
Definition tpl (o : option string) : string :=
  match o with
  | Some s => s
  | None => "undefined"
  end.

(** An element of an array under [join]: [undefined] prints as ['']. *)
Definition joined (o : option string) : string :=
  match o with
  | Some s => s
  | None => EmptyString
  end.

(** [o === s] for an optional [o] and a string [s] *)
Definition strictEq (o : option string) (s : string) : bool :=
  match o with
  | Some t => String.eqb t s
  | None => false
  end.

(** [`${n}`] for a non-negative integer *)
Definition ofNat (n : nat) : string := NilEmpty.string_of_uint (Nat.to_uint n).

(** [toUpperCase] on one latin1 code unit.  Within latin1 the Unicode
    upper-case mapping sends a-z to A-Z, 0xE0-0xFE (0xF7 apart) to
    0xC0-0xDE and 0xDF to the two letters SS.  The images of 0xB5 and
    0xFF lie outside latin1 (U+039C, U+0178); the server only compares
    the result with ASCII command names and writes it back through a
    latin1 encoder, which keeps the low byte, so those two are
    represented by their low bytes 0x9C and 0x78. *)
Definition upperUnit (c : ascii) : string :=
  let n := nat_of_ascii c in
  if ((97 <=? n) && (n <=? 122))%nat then String (ascii_of_nat (n - 32)) EmptyString
  else if (n =? 181)%nat then String (ascii_of_nat 156) EmptyString
  else if (n =? 223)%nat then "SS"
  else if ((224 <=? n) && (n <=? 254) && negb (n =? 247))%nat
       then String (ascii_of_nat (n - 32)) EmptyString
  else if (n =? 255)%nat then String (ascii_of_nat 120) EmptyString
  else String c EmptyString.

(** [s.toUpperCase()] *)
Fixpoint toUpperCase (s : string) : string :=
  match s with
  | EmptyString => EmptyString
  | String c r => upperUnit c ++ toUpperCase r
  end.

(** *** Sets with insertion order ([Set<T>]) *)
Section SetOps.
Context {A : Type} (eqb : A -> A -> bool).

Definition has (x : A) (l : list A) : bool := existsb (eqb x) l.

Definition add (x : A) (l : list A) : list A :=
  if has x l then l else l ++ [x].

Definition delete (x : A) (l : list A) : list A :=
  filter (fun y => negb (eqb x y)) l.
End SetOps.

(** *** Maps with insertion order and string keys ([Map<string, V>]) *)
Section MapOps.
Context {V : Type}.

Fixpoint get (k : string) (m : list (string * V)) : option V :=
  match m with
  | [] => None
  | (k', v) :: r => if String.eqb k' k then Some v else get k r
  end.

(** [m.set(k, v)]: an existing key keeps its position. *)
Fixpoint set (k : string) (v : V) (m : list (string * V)) : list (string * V) :=
  match m with
  | [] => [(k, v)]
  | (k', v') :: r =>
      if String.eqb k' k then (k, v) :: r else (k', v') :: set k v r
  end.

(** [m.delete(k)] *)
Definition remove (k : string) (m : list (string * V)) : list (string * V) :=
  filter (fun kv => negb (String.eqb (fst kv) k)) m.
End MapOps.

End JS.

(** ** Data model *)

(** A connection: the identity shared by a [Socket] and its [IRCClient]. *)
Definition conn := nat.

(** The part of [net.Socket] the server touches: the [writable] and
    [destroyed] flags and the chunks handed to [write], oldest first. *)
Record Socket := mkSocket {
  writable : bool;
  destroyed : bool;
  wire : list string
}.

(** [interface IRCClient]; the [socket] field is the connection itself. *)
Record IRCClient := mkClient {
  nickname : option string;
  username : option string;
  realname : option string;
  hostname : string;
  registered : bool;
  channels : list string
}.

(** [interface IRCChannel] *)
Record IRCChannel := mkChannel {
  name : string;
  clients : list conn;
  topic : option string
}.

(** [class IRCServer]: the two registries ([clients], whose keys are kept
    in insertion order and whose value at a key is the client object of
    that connection, and [channels]) and the two object stores. *)
Record IRCServer := mkServer {
  srv_clients : list conn;
  srv_channels : list (string * IRCChannel);
  heap : list IRCClient;
  sockets : list Socket
}.

Definition serverName : string := "irc.comicserver.local".
Definition version : string := "1.0.0".
Definition CRLF : string := String (ascii_of_nat 13) (String (ascii_of_nat 10) EmptyString).

(** *** Object stores *)

Fixpoint update {A} (i : nat) (x : A) (l : list A) : list A :=
  match l, i with
  | [], _ => []
  | _ :: r, O => x :: r
  | y :: r, S j => y :: update j x r
  end.

(** What a dangling reference would read; no handler is run on one. *)
Definition noClient : IRCClient := mkClient None None None EmptyString false [].
Definition noSocket : Socket := mkSocket false true [].

Definition getClient (st : IRCServer) (c : conn) : IRCClient := nth c (heap st) noClient.
Definition getSocket (st : IRCServer) (c : conn) : Socket := nth c (sockets st) noSocket.

Definition setClient (st : IRCServer) (c : conn) (cl : IRCClient) : IRCServer :=
  mkServer (srv_clients st) (srv_channels st) (update c cl (heap st)) (sockets st).
Definition setSocket (st : IRCServer) (c : conn) (s : Socket) : IRCServer :=
  mkServer (srv_clients st) (srv_channels st) (heap st) (update c s (sockets st)).
Definition setChannels (st : IRCServer) (m : list (string * IRCChannel)) : IRCServer :=
  mkServer (srv_clients st) m (heap st) (sockets st).
Definition setRegistry (st : IRCServer) (r : list conn) : IRCServer :=
  mkServer r (srv_channels st) (heap st) (sockets st).

Definition withNickname (cl : IRCClient) (n : option string) : IRCClient :=
  mkClient n (username cl) (realname cl) (hostname cl) (registered cl) (channels cl).
Definition withUser (cl : IRCClient) (u r : option string) : IRCClient :=
  mkClient (nickname cl) u r (hostname cl) (registered cl) (channels cl).
Definition withRegistered (cl : IRCClient) (b : bool) : IRCClient :=
  mkClient (nickname cl) (username cl) (realname cl) (hostname cl) b (channels cl).
Definition withChannels (cl : IRCClient) (l : list string) : IRCClient :=
  mkClient (nickname cl) (username cl) (realname cl) (hostname cl) (registered cl) l.
Definition withClients (ch : IRCChannel) (l : list conn) : IRCChannel :=
  mkChannel (name ch) l (topic ch).
Definition withTopic (ch : IRCChannel) (t : option string) : IRCChannel :=
  mkChannel (name ch) (clients ch) t.

(** The fragment [`:${client.nickname}!${client.username}@${client.hostname}`]
    that opens every relayed line. *)
Definition prefixOf (cl : IRCClient) : string :=
  ":" ++ JS.tpl (nickname cl) ++ "!" ++ JS.tpl (username cl) ++ "@" ++ hostname cl.

(** ** Output *)

(** [send]: one [write] of the line and its terminator, if the socket is writable. *)
Definition send (st : IRCServer) (client : conn) (message : string) : IRCServer :=
  let s := getSocket st client in
  if writable s
  then setSocket st client (mkSocket (writable s) (destroyed s) (wire s ++ [message ++ CRLF]))
  else st.

(** The line of a numeric reply. *)
Definition replyText (code nick message : string) : string :=
  ":" ++ serverName ++ " " ++ code ++ " " ++ nick ++ " " ++ message.

Definition sendReply (st : IRCServer) (client : conn) (code message : string) : IRCServer :=
  let nick := JS.orElse (nickname (getClient st client)) "*" in
  send st client (replyText code nick message).

(** [excludeClient !== client], where an omitted argument excludes nobody. *)
Definition notExcluded (excludeClient : option conn) (client : conn) : bool :=
  match excludeClient with
  | Some e => negb (Nat.eqb client e)
  | None => true
  end.

Definition broadcastToChannel (st : IRCServer) (channel : IRCChannel) (message : string)
    (excludeClient : option conn) : IRCServer :=
  fold_left
    (fun st' client =>
       if notExcluded excludeClient client && writable (getSocket st' client)
       then send st' client message
       else st')
    (clients channel) st.

(** The loop [client.channels.forEach(n => { const channel = this.channels.get(n);
    if (channel) broadcastToChannel(channel, message, client) })] shared by
    [handleNick] and [handleQuit]. *)
Definition broadcastToChannelsOf (st : IRCServer) (names : list string) (message : string)
    (client : conn) : IRCServer :=
  fold_left
    (fun st' channelName =>
       match JS.get channelName (srv_channels st') with
       | Some channel => broadcastToChannel st' channel message (Some client)
       | None => st'
       end)
    names st.

(** ** Registration *)

Definition checkRegistration (st : IRCServer) (client : conn) : IRCServer :=
  let cl := getClient st client in
  if negb (registered cl) && JS.truthy (nickname cl) && JS.truthy (username cl) then
    let st := setClient st client (withRegistered cl true) in
    let cl := getClient st client in
    let st := sendReply st client "001"
                (":Welcome to the Comic Chat IRC Network " ++ JS.tpl (nickname cl) ++ "!"
                 ++ JS.tpl (username cl) ++ "@" ++ hostname cl) in
    let st := sendReply st client "002"
                (":Your host is " ++ serverName ++ ", running version " ++ version) in
    let st := sendReply st client "003"
                ":This server was created for Microsoft Comic Chat compatibility" in
    sendReply st client "004" (serverName ++ " " ++ version ++ " - -")
  else st.

Definition handleUser (st : IRCServer) (client : conn) (parts : list string) : IRCServer :=
  if (length parts <? 5)%nat then sendReply st client "461" "USER :Not enough parameters"
  else
    let cl := getClient st client in
    let st := setClient st client
                (withUser cl (Some (nth 1 parts EmptyString))
                   (Some (JS.substring1 (JS.join (JS.slice 4 parts))))) in
    checkRegistration st client.

(** The scan [for (const [, otherClient] of this.clients)] of [handleNick]. *)
Definition nickInUse (st : IRCServer) (client : conn) (newNick : string) : bool :=
  existsb
    (fun otherClient =>
       negb (Nat.eqb otherClient client)
       && JS.strictEq (nickname (getClient st otherClient)) newNick)
    (srv_clients st).

Definition handleNick (st : IRCServer) (client : conn) (parts : list string) : IRCServer :=
  if (length parts <? 2)%nat then sendReply st client "431" ":No nickname given"
  else
    let newNick := nth 1 parts EmptyString in
    if nickInUse st client newNick
    then sendReply st client "433" (newNick ++ " :Nickname is already in use")
    else
      let cl := getClient st client in
      let oldNick := nickname cl in
      let st := setClient st client (withNickname cl (Some newNick)) in
      let st :=
        if registered cl && JS.truthy oldNick
        then broadcastToChannelsOf st (channels cl)
               (":" ++ JS.tpl oldNick ++ "!" ++ JS.tpl (username cl) ++ "@" ++ hostname cl
                ++ " NICK :" ++ newNick) client
        else st in
      checkRegistration st client.

(** ** Channel membership *)

(** [channel && channel.clients.has(client)] *)
Definition memberOf (st : IRCServer) (client : conn) (channelName : string) : option IRCChannel :=
  match JS.get channelName (srv_channels st) with
  | Some channel => if JS.has Nat.eqb client (clients channel) then Some channel else None
  | None => None
  end.

Definition notRegistered (st : IRCServer) (client : conn) : IRCServer :=
  sendReply st client "451" ":You have not registered".

Definition handleJoin (st : IRCServer) (client : conn) (parts : list string) : IRCServer :=
  if negb (registered (getClient st client)) then notRegistered st client
  else if (length parts <? 2)%nat then sendReply st client "461" "JOIN :Not enough parameters"
  else
    let channelName := nth 1 parts EmptyString in
    if negb (JS.startsWith channelName "#")
    then sendReply st client "403" (channelName ++ " :No such channel")
    else
      let fresh := mkChannel channelName [] None in
      let '(channel, st) :=
        match JS.get channelName (srv_channels st) with
        | Some channel => (channel, st)
        | None => (fresh, setChannels st (JS.set channelName fresh (srv_channels st)))
        end in
      if JS.has Nat.eqb client (clients channel) then st
      else
        let channel := withClients channel (JS.add Nat.eqb client (clients channel)) in
        let st := setChannels st (JS.set channelName channel (srv_channels st)) in
        let cl := getClient st client in
        let st := setClient st client
                    (withChannels cl (JS.add String.eqb channelName (channels cl))) in
        let cl := getClient st client in
        let st := send st client (prefixOf cl ++ " JOIN :" ++ channelName) in
        let st := if JS.truthy (topic channel)
                  then sendReply st client "332" (channelName ++ " :" ++ JS.tpl (topic channel))
                  else st in
        let names := JS.join (map (fun c => JS.joined (nickname (getClient st c)))
                                (clients channel)) in
        let st := sendReply st client "353" ("= " ++ channelName ++ " :" ++ names) in
        let st := sendReply st client "366" (channelName ++ " :End of /NAMES list") in
        broadcastToChannel st channel (prefixOf cl ++ " JOIN :" ++ channelName) (Some client).

(** [channel.clients.delete(client)] followed by the removal of the
    channel when it has become empty; used by [handlePart] and
    [removeClient]. *)
Definition dropMember (m : list (string * IRCChannel)) (channelName : string)
    (channel : IRCChannel) (client : conn) : list (string * IRCChannel) :=
  let channel := withClients channel (JS.delete Nat.eqb client (clients channel)) in
  if (length (clients channel) =? 0)%nat
  then JS.remove channelName m
  else JS.set channelName channel m.

(** The part notice of [handlePart]: prefix, channel name and, when the
    command carries a reason, the reason without its leading colon. *)
Definition partLine (cl : IRCClient) (parts : list string) : string :=
  let channelName := nth 1 parts EmptyString in
  let partMessage := JS.join (JS.slice 2 parts) in
  let fullMessage :=
    match partMessage with
    | EmptyString => EmptyString
    | _ => " :" ++ (if JS.startsWith partMessage ":"
                    then JS.substring1 partMessage else partMessage)
    end in
  prefixOf cl ++ " PART " ++ channelName ++ fullMessage.

Definition handlePart (st : IRCServer) (client : conn) (parts : list string) : IRCServer :=
  if negb (registered (getClient st client)) then notRegistered st client
  else if (length parts <? 2)%nat then sendReply st client "461" "PART :Not enough parameters"
  else
    let channelName := nth 1 parts EmptyString in
    match memberOf st client channelName with
    | None => sendReply st client "442" (channelName ++ " :You're not on that channel")
    | Some channel =>
        let st := broadcastToChannel st channel (partLine (getClient st client) parts) None in
        let st := setChannels st (dropMember (srv_channels st) channelName channel client) in
        setClient st client
          (withChannels (getClient st client)
             (JS.delete String.eqb channelName (channels (getClient st client))))
    end.

(** [removeClient]: detach from every channel named in [client.channels],
    drop the registry entry, destroy the socket. *)
Definition detachStep (client : conn) (m : list (string * IRCChannel)) (channelName : string)
    : list (string * IRCChannel) :=
  match JS.get channelName m with
  | Some channel => dropMember m channelName channel client
  | None => m
  end.

Definition destroy (s : Socket) : Socket := mkSocket false true (wire s).

Definition removeClient (st : IRCServer) (client : conn) : IRCServer :=
  let st := setChannels st
              (fold_left (detachStep client) (channels (getClient st client)) (srv_channels st)) in
  let st := setRegistry st (JS.delete Nat.eqb client (srv_clients st)) in
  if negb (destroyed (getSocket st client))
  then setSocket st client (destroy (getSocket st client))
  else st.

Definition handleQuit (st : IRCServer) (client : conn) (parts : list string) : IRCServer :=
  let cl := getClient st client in
  let quitMessage :=
    match JS.substring1 (JS.join (JS.slice 1 parts)) with
    | EmptyString => "Client Quit"
    | s => s
    end in
  let st := broadcastToChannelsOf st (channels cl)
              (prefixOf cl ++ " QUIT :" ++ quitMessage) client in
  removeClient st client.

(** ** Messaging and queries *)

Definition findClientByNickname (st : IRCServer) (nick : string) : option conn :=
  find (fun client => JS.strictEq (nickname (getClient st client)) nick) (srv_clients st).

(** The text of a PRIVMSG: [parts.slice(2).join(' ').substring(1)]. *)
Definition privmsgText (parts : list string) : string :=
  JS.substring1 (JS.join (JS.slice 2 parts)).

Definition handlePrivmsg (st : IRCServer) (client : conn) (parts : list string) : IRCServer :=
  if negb (registered (getClient st client)) then notRegistered st client
  else if (length parts <? 3)%nat then sendReply st client "461" "PRIVMSG :Not enough parameters"
  else
    let target := nth 1 parts EmptyString in
    let message := privmsgText parts in
    let cl := getClient st client in
    if JS.startsWith target "#" then
      match memberOf st client target with
      | Some channel =>
          broadcastToChannel st channel
            (prefixOf cl ++ " PRIVMSG " ++ target ++ " :" ++ message) (Some client)
      | None => sendReply st client "404" (target ++ " :Cannot send to channel")
      end
    else
      match findClientByNickname st target with
      | Some targetClient =>
          send st targetClient (prefixOf cl ++ " PRIVMSG " ++ target ++ " :" ++ message)
      | None => sendReply st client "401" (target ++ " :No such nick/channel")
      end.

Definition handlePing (st : IRCServer) (client : conn) (parts : list string) : IRCServer :=
  if (length parts <? 2)%nat then sendReply st client "461" "PING :Not enough parameters"
  else send st client ("PONG " ++ serverName ++ " :" ++ nth 1 parts EmptyString).

(** The payload of a 352 line for member [m]. *)
Definition whoEntry (target : string) (m : IRCClient) : string :=
  target ++ " " ++ JS.tpl (username m) ++ " " ++ hostname m ++ " " ++ serverName
  ++ " " ++ JS.tpl (nickname m) ++ " H :0 " ++ JS.tpl (realname m).

(** One step of the [forEach] of [handleWho]. *)
Definition whoLine (client : conn) (target : string) (st : IRCServer) (c : conn) : IRCServer :=
  let m := getClient st c in
  if JS.truthy (nickname m)
  then sendReply st client "352" (whoEntry target m)
  else st.

Definition handleWho (st : IRCServer) (client : conn) (parts : list string) : IRCServer :=
  if negb (registered (getClient st client)) then notRegistered st client
  else if (length parts <? 2)%nat then sendReply st client "315" "* :End of /WHO list"
  else
    let target := nth 1 parts EmptyString in
    let st :=
      if JS.startsWith target "#" then
        match memberOf st client target with
        | Some channel => fold_left (whoLine client target) (clients channel) st
        | None => st
        end
      else st in
    sendReply st client "315" (target ++ " :End of /WHO list").

Definition handleWhois (st : IRCServer) (client : conn) (parts : list string) : IRCServer :=
  if negb (registered (getClient st client)) then notRegistered st client
  else if (length parts <? 2)%nat then sendReply st client "431" ":No nickname given"
  else
    let target := nth 1 parts EmptyString in
    match findClientByNickname st target with
    | None => sendReply st client "401" (target ++ " :No such nick/channel")
    | Some targetClient =>
        let t := getClient st targetClient in
        let st := sendReply st client "311"
                    (target ++ " " ++ JS.tpl (username t) ++ " " ++ hostname t ++ " * :"
                     ++ JS.tpl (realname t)) in
        let chans := JS.join (channels t) in
        let st := match chans with
                  | EmptyString => st
                  | _ => sendReply st client "319" (target ++ " :" ++ chans)
                  end in
        let st := sendReply st client "312"
                    (target ++ " " ++ serverName ++ " :Comic Chat IRC Server") in
        sendReply st client "318" (target ++ " :End of /WHOIS list")
    end.

Definition handleList (st : IRCServer) (client : conn) (parts : list string) : IRCServer :=
  if negb (registered (getClient st client)) then notRegistered st client
  else
    let st := sendReply st client "321" "Channel :Users  Name" in
    let st :=
      fold_left
        (fun st' (kv : string * IRCChannel) =>
           let channel := snd kv in
           sendReply st' client "322"
             (name channel ++ " " ++ JS.ofNat (length (clients channel)) ++ " :"
              ++ JS.orElse (topic channel) EmptyString))
        (srv_channels st) st in
    sendReply st client "323" ":End of /LIST".

Definition handleTopic (st : IRCServer) (client : conn) (parts : list string) : IRCServer :=
  if negb (registered (getClient st client)) then notRegistered st client
  else if (length parts <? 2)%nat then sendReply st client "461" "TOPIC :Not enough parameters"
  else
    let channelName := nth 1 parts EmptyString in
    match memberOf st client channelName with
    | None => sendReply st client "442" (channelName ++ " :You're not on that channel")
    | Some channel =>
        if (length parts =? 2)%nat then
          if JS.truthy (topic channel)
          then sendReply st client "332" (channelName ++ " :" ++ JS.tpl (topic channel))
          else sendReply st client "331" (channelName ++ " :No topic is set")
        else
          let newTopic := JS.substring1 (JS.join (JS.slice 2 parts)) in
          let channel := withTopic channel (Some newTopic) in
          let st := setChannels st (JS.set channelName channel (srv_channels st)) in
          broadcastToChannel st channel
            (prefixOf (getClient st client) ++ " TOPIC " ++ channelName ++ " :" ++ newTopic) None
    end.

Definition handleMode (st : IRCServer) (client : conn) (parts : list string) : IRCServer :=
  if negb (registered (getClient st client)) then notRegistered st client
  else if (length parts <? 2)%nat then sendReply st client "461" "MODE :Not enough parameters"
  else
    let target := nth 1 parts EmptyString in
    let cl := getClient st client in
    if JS.strictEq (nickname cl) target then
      if (length parts =? 2)%nat then sendReply st client "221" "+"
      else send st client (prefixOf cl ++ " MODE " ++ JS.tpl (nickname cl) ++ " "
                           ++ nth 2 parts EmptyString)
    else if JS.startsWith target "#" then
      match memberOf st client target with
      | None => sendReply st client "442" (target ++ " :You're not on that channel")
      | Some channel =>
          if (length parts =? 2)%nat then sendReply st client "324" (target ++ " +")
          else broadcastToChannel st channel
                 (prefixOf cl ++ " MODE " ++ target ++ " " ++ JS.join (JS.slice 2 parts)) None
      end
    else sendReply st client "401" (target ++ " :No such nick/channel").

(** ** Dispatch *)

Definition commandOf (message : string) : string :=
  JS.toUpperCase (hd EmptyString (JS.split message)).

Definition handleMessage (st : IRCServer) (client : conn) (message : string) : IRCServer :=
  let parts := JS.split message in
  let command := JS.toUpperCase (hd EmptyString parts) in
  if command =? "USER" then handleUser st client parts
  else if command =? "NICK" then handleNick st client parts
  else if command =? "JOIN" then handleJoin st client parts
  else if command =? "PART" then handlePart st client parts
  else if command =? "PRIVMSG" then handlePrivmsg st client parts
  else if command =? "PING" then handlePing st client parts
  else if command =? "QUIT" then handleQuit st client parts
  else if command =? "WHO" then handleWho st client parts
  else if command =? "WHOIS" then handleWhois st client parts
  else if command =? "LIST" then handleList st client parts
  else if command =? "TOPIC" then handleTopic st client parts
  else if command =? "MODE" then handleMode st client parts
  else sendReply st client "421" (command ++ " :Unknown command").

(** ** Connection events ([start]) *)

(** What the runtime delivers to the callbacks installed by [start]: a new
    connection with its peer address, one trimmed non-empty line of a
    ['data'] chunk, ['close'], ['error'], and the writable side of a
    socket ending before its ['close'] is delivered. *)
Inductive Event :=
| Connect (remoteAddress : option string)
| Line (client : conn) (message : string)
| Close (client : conn)
| Error (client : conn)
| Ended (client : conn).

Definition initial : IRCServer := mkServer [] [] [] [].

Definition accept (st : IRCServer) (remoteAddress : option string) : IRCServer :=
  let client := length (heap st) in
  mkServer (srv_clients st ++ [client]) (srv_channels st)
    (heap st ++ [mkClient None None None (JS.orElse remoteAddress "unknown") false []])
    (sockets st ++ [mkSocket true false []]).

Definition allocated (st : IRCServer) (client : conn) : bool :=
  (client <? length (heap st))%nat.

Definition step (st : IRCServer) (e : Event) : IRCServer :=
  match e with
  | Connect a => accept st a
  | Line c m => if allocated st c then handleMessage st c m else st
  | Close c => if allocated st c then removeClient st c else st
  | Error c => if allocated st c then removeClient st c else st
  | Ended c =>
      if allocated st c
      then setSocket st c (mkSocket false (destroyed (getSocket st c)) (wire (getSocket st c)))
      else st
  end.

Definition run (es : list Event) (st : IRCServer) : IRCServer := fold_left step es st.

Definition reachable (st : IRCServer) : Prop := exists es, run es initial = st.

(** ** The ['data'] callback of [start] *)

(** The code units [trim] strips, within latin1: TAB, LF, VT, FF, CR,
    space and the no-break space. *)
Definition isWhite (c : ascii) : bool :=
  let n := nat_of_ascii c in
  (((9 <=? n) && (n <=? 13)) || (n =? 32) || (n =? 160))%nat.

(** [s.trimStart()] *)
Fixpoint trimStart (s : string) : string :=
  match s with
  | EmptyString => EmptyString
  | String c r => if isWhite c then trimStart r else s
  end.

(** [s.trimEnd()] *)
Fixpoint trimEnd (s : string) : string :=
  match s with
  | EmptyString => EmptyString
  | String c r =>
      match trimEnd r with
      | EmptyString => if isWhite c then EmptyString else String c EmptyString
      | r' => String c r'
      end
  end.

(** [s.trim()] *)
Definition trim (s : string) : string := trimEnd (trimStart s).

(** Putting a code unit in front of the first piece of a split. *)
Definition consHead (c : ascii) (l : list string) : list string :=
  match l with
  | h :: t => String c h :: t
  | [] => [String c EmptyString]
  end.

(** [s.split('\r\n')] *)
Fixpoint splitCRLF (s : string) : list string :=
  match s with
  | EmptyString => [EmptyString]
  | String c r =>
      match r with
      | String c2 r2 =>
          if ((nat_of_ascii c =? 13) && (nat_of_ascii c2 =? 10))%nat
          then EmptyString :: splitCRLF r2
          else consHead c (splitCRLF r)
      | EmptyString => [String c EmptyString]
      end
  end.

(** The body of [socket.on('data', ...)], on the chunk decoded as latin1:
    the trimmed chunk is split at CR LF and every piece that is not
    blank is handled, trimmed, in order. *)
Definition onData (st : IRCServer) (client : conn) (data : string) : IRCServer :=
  fold_left
    (fun st' message =>
       match trim message with
       | EmptyString => st'
       | String a m => handleMessage st' client (String a m)
       end)
    (splitCRLF (trim data)) st.

(** * Vocabulary of the properties *)

(** The two registries and the client records: everything but the sockets. *)
Definition core (st : IRCServer) : list conn * list (string * IRCChannel) * list IRCClient :=
  (srv_clients st, srv_channels st, heap st).

(** What [send] does to the socket it is given. *)
Definition deliver (message : string) (s : Socket) : Socket :=
  if writable s then mkSocket (writable s) (destroyed s) (wire s ++ [message ++ CRLF]) else s.

(** [c] is in the member set of the channel registered under [n]. *)
Definition member (st : IRCServer) (c : conn) (n : string) : Prop :=
  exists ch, JS.get n (srv_channels st) = Some ch /\ In c (clients ch).

(** The invariant of the two registries and the client records: no
    channel of the directory is empty or lists a member twice; a member
    of a channel is registered and has the channel's name in its
    joined-channel set; a client of the registry is allocated and is a
    member of every channel its joined-channel set names. *)
Record Inv (st : IRCServer) : Prop := mkInv {
  inv_nonempty : forall n ch, JS.get n (srv_channels st) = Some ch -> clients ch <> [];
  inv_nodup : forall n ch, JS.get n (srv_channels st) = Some ch -> NoDup (clients ch);
  inv_fwd : forall c n, member st c n -> In n (channels (getClient st c));
  inv_bwd : forall c n,
      In c (srv_clients st) -> In n (channels (getClient st c)) -> member st c n;
  inv_memreg : forall c n, member st c n -> registered (getClient st c) = true;
  inv_regalloc : forall c, In c (srv_clients st) -> c < length (heap st)
}.

(** The entry left for a channel once [c] is deleted from it: none if
    that empties the channel. *)
Definition detached (c : conn) (ch : IRCChannel) : option IRCChannel :=
  match JS.delete Nat.eqb c (clients ch) with
  | [] => None
  | l => Some (withClients ch l)
  end.

(** Sequencing of two lookups that may find nothing. *)
Definition bindOpt {A B} (o : option A) (f : A -> option B) : option B :=
  match o with Some a => f a | None => None end.

(** The channel record a JOIN of [n] works on: the registered one, or a
    fresh empty one. *)
Definition channelFor (st : IRCServer) (n : string) : IRCChannel :=
  match JS.get n (srv_channels st) with
  | Some ch => ch
  | None => mkChannel n [] None
  end.

(** alice and bob register and meet in [#test]. *)
Definition twoInTest : list Event :=
  [Connect (Some "10.0.0.1"); Line 0 "NICK alice"; Line 0 "USER alice 0 * :Alice A";
   Line 0 "JOIN #test";
   Connect (Some "10.0.0.2"); Line 1 "NICK bob"; Line 1 "USER bob 0 * :Bob B";
   Line 1 "JOIN #test"].

(** The state they are then in. *)
Definition stTwo : IRCServer := run twoInTest initial.

(** A third connection that has sent nothing yet. *)
Definition stThree : IRCServer := run (twoInTest ++ [Connect None]) initial.

(** The member set recorded under a channel name. *)
Definition membersOf (st : IRCServer) (n : string) : list conn :=
  match JS.get n (srv_channels st) with
  | Some ch => clients ch
  | None => []
  end.

(** The wire form of a numeric reply: [sendReply]'s line and terminator. *)
Definition numeric (code nick payload : string) : string :=
  replyText code nick payload ++ CRLF.



(** [send] of several lines in order to one socket: each is written with
    its terminator if the socket is writable, and dropped otherwise. *)
Definition deliverAll (messages : list string) (s : Socket) : Socket :=
  fold_left (fun s' m => deliver m s') messages s.

(** Both identity fields are present (set and non-empty). *)
Definition present (cl : IRCClient) : bool :=
  JS.truthy (nickname cl) && JS.truthy (username cl).

(** The four welcome lines for an identity, as they appear on the wire
    (without the terminator). *)
Definition welcomeLines (nick user host : string) : list string :=
  [":irc.comicserver.local 001 " ++ nick ++ " :Welcome to the Comic Chat IRC Network "
     ++ nick ++ "!" ++ user ++ "@" ++ host;
   ":irc.comicserver.local 002 " ++ nick
     ++ " :Your host is irc.comicserver.local, running version 1.0.0";
   ":irc.comicserver.local 003 " ++ nick
     ++ " :This server was created for Microsoft Comic Chat compatibility";
   ":irc.comicserver.local 004 " ++ nick ++ " irc.comicserver.local 1.0.0 - -"].

(** No connection registered in [st] is unregistered in [st']. *)
Definition keepsRegistered (st st' : IRCServer) : Prop :=
  forall d, registered (getClient st d) = true -> registered (getClient st' d) = true.

(** The client has just been promoted: it is registered, and its socket
    has been sent the four welcome lines for its identity, in order, and
    nothing else; no other socket was written to. *)
Definition promoted (st st' : IRCServer) (c : conn) : Prop :=
  registered (getClient st' c) = true
  /\ (forall d, d <> c -> getSocket st' d = getSocket st d)
  /\ exists nick user,
      nickname (getClient st' c) = Some nick /\ username (getClient st' c) = Some user
      /\ getSocket st' c
         = deliverAll (welcomeLines nick user (hostname (getClient st' c))) (getSocket st c).

(** The third connection after it has sent its USER line only. *)
Definition stUserSent : IRCServer :=
  run (twoInTest ++ [Connect None; Line 2 "USER carol 0 * :Carol C"]) initial.



(** alice, registered and in [#test] with bob, sends [NICK  x] (two
    spaces): the second token is empty and becomes her nickname. *)
Definition stNameless : IRCServer := run (twoInTest ++ [Line 0 "NICK  x"]) initial.

(** How many of the channels named in [names] have [d] as a member. *)
Definition sharedWith (st : IRCServer) (names : list string) (d : conn) : nat :=
  length (filter (fun n => JS.has Nat.eqb d (membersOf st n)) names).

(** What a handler run for connection [c] may do, whatever its input: it
    allocates nothing, adds nobody to the registry, rewrites no client
    record but [c]'s, keeps [c]'s hostname and (unless [nick] is set, as
    for NICK) nickname, only ever appends to what a socket was sent,
    re-opens no socket, and leaves in the directory only entries it
    found there or entries keyed by a [#] name that they carry. *)
Record Touches (nick : bool) (c : conn) (st st' : IRCServer) : Prop := mkTouches {
  t_heap : length (heap st') = length (heap st);
  t_sockets : length (sockets st') = length (sockets st);
  t_registry : forall d, In d (srv_clients st') -> In d (srv_clients st);
  t_others : forall d, d <> c -> getClient st' d = getClient st d;
  t_hostname : hostname (getClient st' c) = hostname (getClient st c);
  t_nickname : nick = false -> nickname (getClient st' c) = nickname (getClient st c);
  t_wire : forall d, exists extra,
      wire (getSocket st' d) = (wire (getSocket st d) ++ extra)%list;
  t_writable : forall d,
      writable (getSocket st' d) = true -> writable (getSocket st d) = true;
  t_closed : forall d,
      writable (getSocket st d) = false -> wire (getSocket st' d) = wire (getSocket st d);
  t_directory : forall n ch',
      JS.get n (srv_channels st') = Some ch' ->
      (exists ch, JS.get n (srv_channels st) = Some ch /\ name ch' = name ch)
      \/ (JS.startsWith n "#" = true /\ name ch' = n)
}.

(** A directory [m'] that comes from [m] by dropping entries, rewriting
    entries under their name, or adding entries keyed by a [#] name that
    they carry. *)
Definition dirStep (m m' : list (string * IRCChannel)) : Prop :=
  forall n ch',
    JS.get n m' = Some ch' ->
    (exists ch, JS.get n m = Some ch /\ name ch' = name ch)
    \/ (JS.startsWith n "#" = true /\ name ch' = n).

(** A token: a string without a space. *)
Fixpoint noSpace (s : string) : bool :=
  match s with
  | EmptyString => true
  | String c r => negb (Ascii.eqb c JS.space) && noSpace r
  end.

(** A string in which no CR is followed by LF. *)
Fixpoint noCRLF (s : string) : bool :=
  match s with
  | EmptyString => true
  | String c r =>
      match r with
      | String c2 _ => negb ((nat_of_ascii c =? 13) && (nat_of_ascii c2 =? 10))%nat && noCRLF r
      | EmptyString => true
      end
  end.

(** The lines of a chunk that reach [handleMessage]. *)
Definition linesOf (data : string) : list string :=
  filter (fun m => negb (String.eqb m EmptyString)) (map trim (splitCRLF (trim data))).

(** No two clients of the registry hold the same nickname. *)
Definition uniqueNicks (st : IRCServer) : Prop :=
  forall c d n, In c (srv_clients st) -> In d (srv_clients st) ->
                nickname (getClient st c) = Some n -> nickname (getClient st d) = Some n ->
                c = d.

(** alice's socket has closed; bob writes to her channel and to her name. *)
Definition stAliceGone : IRCServer := run (twoInTest ++ [Close 0]) initial.

(** The output of a successful JOIN, written on the state [st2] that
    already holds the new membership. *)
Definition joinOutput (st2 : IRCServer) (c : conn) (n : string) (ch' : IRCChannel) : IRCServer :=
  let cl := getClient st2 c in
  let s1 := send st2 c (prefixOf cl ++ " JOIN :" ++ n) in
  let s2 := if JS.truthy (topic ch')
            then sendReply s1 c "332" (n ++ " :" ++ JS.tpl (topic ch')) else s1 in
  let names := JS.join (map (fun d => JS.joined (nickname (getClient s2 d))) (clients ch')) in
  let s3 := sendReply s2 c "353" ("= " ++ n ++ " :" ++ names) in
  let s4 := sendReply s3 c "366" (n ++ " :End of /NAMES list") in
  broadcastToChannel s4 ch' (prefixOf cl ++ " JOIN :" ++ n) (Some c).


(** The text of a quit notice: the reason given, or the default one. *)
Definition quitReason (parts : list string) : string :=
  match JS.substring1 (JS.join (JS.slice 1 parts)) with
  | EmptyString => "Client Quit"
  | String a s => String a s
  end.


(** What registration looks at in a client record. *)
Definition identity (cl : IRCClient) : option string * option string * bool :=
  (nickname cl, username cl, registered cl).

(** No connection's nickname, username or registered flag differs between
    [st] and [st']. *)
Definition sameIdentity (st st' : IRCServer) : Prop :=
  forall d, identity (getClient st' d) = identity (getClient st d).

(** The third connection has registered as carol and joined nothing. *)
Definition stCarol : IRCServer :=
  run (twoInTest ++ [Connect None; Line 2 "USER carol 0 * :Carol C"; Line 2 "NICK carol"])
    initial.

(** The effect of a PART of channel [n] by its member [c] whose notice is
    [notice]: the notice is written once to the socket of every member as
    the membership stood before the removal, [c] included, and to no
    other socket; [c] is then out of the member set and [n] out of its
    joined-channel set; a channel that had [c] as only member is gone
    from the directory, any other is still there with the old member set
    less [c], one shorter; no other channel is touched. *)
Definition parted (st st' : IRCServer) (c : conn) (n notice : string) : Prop :=
  (forall d, getSocket st' d =
             if JS.has Nat.eqb d (membersOf st n)
             then deliver notice (getSocket st d)
             else getSocket st d)
  /\ (membersOf st n = [c] -> JS.get n (srv_channels st') = None)
  /\ (membersOf st n <> [c] ->
      JS.get n (srv_channels st') <> None
      /\ membersOf st' n = JS.delete Nat.eqb c (membersOf st n)
      /\ S (length (membersOf st' n)) = length (membersOf st n))
  /\ ~ In c (membersOf st' n)
  /\ ~ In n (channels (getClient st' c))
  /\ (forall k, k <> n -> JS.get k (srv_channels st') = JS.get k (srv_channels st)).


(** * Properties *)

(** ** Object stores *)

Lemma length_update {A} (i : nat) (x : A) (l : list A) : length (update i x l) = length l.
Proof.
  revert i; induction l as [|y r IH]; intros [|i]; simpl; auto.
Qed.

Lemma nth_update_same {A} (i : nat) (x d : A) (l : list A) :
  i < length l -> nth i (update i x l) d = x.
Proof.
  revert i; induction l as [|y r IH]; intros [|i] H; simpl in *; try lia; auto.
  apply IH; lia.
Qed.

Lemma nth_update_other {A} (i j : nat) (x d : A) (l : list A) :
  i <> j -> nth j (update i x l) d = nth j l d.
Proof.
  revert i j; induction l as [|y r IH]; intros [|i] [|j] H; simpl; auto; try congruence.
Qed.

Lemma update_beyond {A} (i : nat) (x : A) (l : list A) :
  length l <= i -> update i x l = l.
Proof.
  revert i; induction l as [|y r IH]; intros [|i] H; simpl in *; auto; try lia.
  f_equal; apply IH; lia.
Qed.

Lemma writable_allocated st c : writable (getSocket st c) = true -> c < length (sockets st).
Proof.
  unfold getSocket; intros H.
  destruct (Nat.lt_ge_cases c (length (sockets st))) as [|Hge]; auto.
  rewrite nth_overflow in H by exact Hge; discriminate.
Qed.

Lemma registered_allocated st c : registered (getClient st c) = true -> c < length (heap st).
Proof.
  unfold getClient; intros H.
  destruct (Nat.lt_ge_cases c (length (heap st))) as [|Hge]; auto.
  rewrite nth_overflow in H by exact Hge; discriminate.
Qed.

Lemma getClient_setClient_same st c cl :
  c < length (heap st) -> getClient (setClient st c cl) c = cl.
Proof. intros; unfold getClient, setClient; simpl; apply nth_update_same; auto. Qed.

Lemma getClient_setClient_other st c d cl :
  c <> d -> getClient (setClient st c cl) d = getClient st d.
Proof. intros; unfold getClient, setClient; simpl; apply nth_update_other; auto. Qed.

(** ** The core state and what output leaves untouched *)

Lemma core_inj st st' :
  core st = core st' ->
  srv_clients st = srv_clients st' /\ srv_channels st = srv_channels st' /\ heap st = heap st'.
Proof. unfold core; intros H; inversion H; auto. Qed.

Lemma getClient_core st st' c : core st = core st' -> getClient st c = getClient st' c.
Proof. intros H; apply core_inj in H as (_ & _ & H); unfold getClient; now rewrite H. Qed.

Lemma core_send st c m : core (send st c m) = core st.
Proof. unfold send; destruct (writable _); reflexivity. Qed.

Lemma core_sendReply st c code m : core (sendReply st c code m) = core st.
Proof. apply core_send. Qed.

Lemma getSocket_send st c m d :
  getSocket (send st c m) d = if Nat.eqb d c then deliver m (getSocket st c) else getSocket st d.
Proof.
  unfold send, deliver.
  destruct (Nat.eqb_spec d c) as [->|Hne].
  - destruct (writable (getSocket st c)) eqn:W; auto.
    unfold getSocket at 1, setSocket; simpl.
    apply nth_update_same. now apply writable_allocated.
  - destruct (writable (getSocket st c)); auto.
    unfold getSocket at 1, setSocket; simpl.
    rewrite nth_update_other by congruence. reflexivity.
Qed.

Lemma length_sockets_send st c m : length (sockets (send st c m)) = length (sockets st).
Proof. unfold send; destruct (writable _); simpl; auto using length_update. Qed.

Lemma writable_deliver m s : writable (deliver m s) = writable s.
Proof. unfold deliver; destruct (writable s) eqn:E; simpl; auto. Qed.

Lemma broadcast_fold_spec (msg : string) (excl : option conn) (l : list conn) :
  forall st,
    let st' := fold_left
                 (fun s client =>
                    if notExcluded excl client && writable (getSocket s client)
                    then send s client msg else s) l st in
    core st' = core st
    /\ length (sockets st') = length (sockets st)
    /\ (NoDup l ->
        forall d, getSocket st' d =
                  if JS.has Nat.eqb d l && notExcluded excl d
                  then deliver msg (getSocket st d) else getSocket st d).
Proof.
  induction l as [|a r IH]; intros st; simpl.
  - repeat split; auto.
  - set (st1 := if notExcluded excl a && writable (getSocket st a) then send st a msg else st).
    destruct (IH st1) as (Hc & Hl & Hs).
    assert (C1 : core st1 = core st) by (unfold st1; destruct (_ && _); auto using core_send).
    assert (L1 : length (sockets st1) = length (sockets st))
      by (unfold st1; destruct (_ && _); auto using length_sockets_send).
    assert (S1 : forall d, getSocket st1 d =
                           if Nat.eqb d a && notExcluded excl a
                           then deliver msg (getSocket st a) else getSocket st d).
    { intros d; unfold st1.
      destruct (notExcluded excl a); simpl; [|now rewrite andb_false_r].
      rewrite andb_true_r.
      destruct (writable (getSocket st a)) eqn:W.
      - apply getSocket_send.
      - destruct (Nat.eqb_spec d a) as [->|]; auto.
        unfold deliver; now rewrite W. }
    split; [congruence|]. split; [congruence|].
    intros ND d. inversion ND as [|? ? Hnin ND']; subst.
    rewrite (Hs ND' d), S1.
    destruct (Nat.eqb_spec d a) as [->|Hne]; simpl.
    + assert (JS.has Nat.eqb a r = false) as ->.
      { apply not_true_is_false; intros E; apply Hnin.
        unfold JS.has in E; apply existsb_exists in E as (x & Hx & E).
        apply Nat.eqb_eq in E; now subst. }
      simpl. reflexivity.
    + destruct (JS.has Nat.eqb d r && notExcluded excl d); auto.
Qed.

Lemma core_broadcastToChannel st ch m e : core (broadcastToChannel st ch m e) = core st.
Proof. apply (broadcast_fold_spec m e (clients ch) st). Qed.

Lemma getSocket_broadcastToChannel st ch m e d :
  NoDup (clients ch) ->
  getSocket (broadcastToChannel st ch m e) d =
  if JS.has Nat.eqb d (clients ch) && notExcluded e d
  then deliver m (getSocket st d) else getSocket st d.
Proof. intros ND; now apply (broadcast_fold_spec m e (clients ch) st). Qed.

Lemma core_broadcastToChannelsOf st names m c :
  core (broadcastToChannelsOf st names m c) = core st.
Proof.
  unfold broadcastToChannelsOf; revert st; induction names as [|n r IH]; intros st; simpl; auto.
  rewrite IH. destruct (JS.get n (srv_channels st)); auto using core_broadcastToChannel.
Qed.

(** ** Facts about the [Set] and [Map] operations *)

Section SetFacts.
Context {A : Type} (eqb : A -> A -> bool).
Hypothesis eqb_spec : forall x y, reflect (x = y) (eqb x y).

Lemma has_In x l : JS.has eqb x l = true <-> In x l.
Proof.
  unfold JS.has; rewrite existsb_exists; split.
  - intros (y & Hy & E). destruct (eqb_spec x y); [now subst|discriminate].
  - intros H; exists x; split; auto. destruct (eqb_spec x x); congruence.
Qed.

Lemma has_false x l : JS.has eqb x l = false <-> ~ In x l.
Proof.
  rewrite <- has_In. destruct (JS.has eqb x l); split; congruence.
Qed.

Lemma In_add x y l : In y (JS.add eqb x l) <-> y = x \/ In y l.
Proof.
  unfold JS.add. destruct (JS.has eqb x l) eqn:E.
  - apply has_In in E. split; [auto|intros [->|]; auto].
  - rewrite in_app_iff; simpl; intuition.
Qed.

Lemma NoDup_add x l : NoDup l -> NoDup (JS.add eqb x l).
Proof.
  intros ND; unfold JS.add. destruct (JS.has eqb x l) eqn:E; auto.
  apply has_false in E.
  apply NoDup_app; auto.
  - repeat constructor; auto.
  - intros y Hy [<-|[]]; auto.
Qed.

Lemma In_delete x y l : In y (JS.delete eqb x l) <-> y <> x /\ In y l.
Proof.
  unfold JS.delete; rewrite filter_In.
  destruct (eqb_spec x y); simpl; intuition congruence.
Qed.

Lemma NoDup_delete x l : NoDup l -> NoDup (JS.delete eqb x l).
Proof. apply NoDup_filter. Qed.

Lemma delete_absent x l : ~ In x l -> JS.delete eqb x l = l.
Proof.
  induction l as [|a r IH]; simpl; intros H; auto.
  destruct (eqb_spec x a); simpl; [subst; tauto|].
  f_equal; apply IH; tauto.
Qed.

Lemma delete_idem x l : JS.delete eqb x (JS.delete eqb x l) = JS.delete eqb x l.
Proof. apply delete_absent. rewrite In_delete; tauto. Qed.

Lemma length_delete x l :
  NoDup l -> In x l -> S (length (JS.delete eqb x l)) = length l.
Proof.
  induction l as [|a r IH]; simpl; intros ND H; [tauto|].
  inversion ND as [|? ? Hn ND']; subst.
  destruct (eqb_spec x a) as [->|Hne]; simpl.
  - fold (JS.delete eqb a r). now rewrite delete_absent.
  - destruct H as [->|H]; [congruence|]. f_equal. now apply IH.
Qed.
End SetFacts.

Section MapFacts.
Context {V : Type}.
Implicit Types (m : list (string * V)) (k : string).

Lemma get_set_same k v m : JS.get k (JS.set k v m) = Some v.
Proof.
  induction m as [|[k' v'] r IH]; simpl.
  - now rewrite String.eqb_refl.
  - destruct (String.eqb k' k) eqn:E; simpl.
    + now rewrite String.eqb_refl.
    + now rewrite E.
Qed.

Lemma get_set_other k k' v m : k <> k' -> JS.get k' (JS.set k v m) = JS.get k' m.
Proof.
  intros Hne; induction m as [|[k0 v0] r IH]; simpl.
  - destruct (String.eqb_spec k k'); congruence.
  - destruct (String.eqb_spec k0 k) as [->|]; simpl.
    + destruct (String.eqb_spec k k'); congruence.
    + now rewrite IH.
Qed.

Lemma get_remove_same k m : JS.get k (JS.remove k m) = None.
Proof.
  induction m as [|[k0 v0] r IH]; simpl; auto.
  destruct (String.eqb_spec k0 k); simpl; auto.
  destruct (String.eqb_spec k0 k); congruence.
Qed.

Lemma get_remove_other k k' m : k <> k' -> JS.get k' (JS.remove k m) = JS.get k' m.
Proof.
  intros Hne; induction m as [|[k0 v0] r IH]; simpl; auto.
  destruct (String.eqb_spec k0 k) as [->|]; simpl.
  - destruct (String.eqb_spec k k'); congruence.
  - now rewrite IH.
Qed.

Lemma set_set k v v' m : JS.set k v (JS.set k v' m) = JS.set k v m.
Proof.
  induction m as [|[k0 v0] r IH]; simpl.
  - now rewrite String.eqb_refl.
  - destruct (String.eqb k0 k) eqn:E; simpl.
    + now rewrite String.eqb_refl.
    + now rewrite E, IH.
Qed.
End MapFacts.

(** ** The membership invariant *)

Lemma Inv_core st st' : core st = core st' -> Inv st -> Inv st'.
Proof.
  intros H [I1 I2 I3 I4 I5 I6]. apply core_inj in H as (Hr & Hm & Hh).
  unfold member, getClient in *.
  constructor; unfold member, getClient; rewrite <- ?Hr, <- ?Hm, <- ?Hh; assumption.
Qed.

Lemma Inv_send st c m : Inv st -> Inv (send st c m).
Proof. apply Inv_core; symmetry; apply core_send. Qed.

Lemma Inv_sendReply st c code m : Inv st -> Inv (sendReply st c code m).
Proof. apply Inv_send. Qed.

Lemma Inv_broadcastToChannel st ch m e : Inv st -> Inv (broadcastToChannel st ch m e).
Proof. apply Inv_core; symmetry; apply core_broadcastToChannel. Qed.

Lemma Inv_broadcastToChannelsOf st l m c : Inv st -> Inv (broadcastToChannelsOf st l m c).
Proof. apply Inv_core; symmetry; apply core_broadcastToChannelsOf. Qed.

Lemma Inv_setSocket st c s : Inv st -> Inv (setSocket st c s).
Proof. apply Inv_core; reflexivity. Qed.

Lemma getClient_setClient st c cl d :
  getClient (setClient st c cl) d =
  if Nat.eqb d c && (c <? length (heap st))%nat then cl else getClient st d.
Proof.
  destruct (Nat.eqb_spec d c) as [->|Hne]; simpl.
  - destruct (Nat.ltb_spec c (length (heap st))).
    + now apply getClient_setClient_same.
    + unfold getClient, setClient; simpl. now rewrite update_beyond.
  - apply getClient_setClient_other; congruence.
Qed.

(** Rewriting a client record without touching its channel set or
    lowering its registered flag keeps the invariant. *)
Lemma Inv_setClient st c cl :
  channels cl = channels (getClient st c) ->
  (registered (getClient st c) = true -> registered cl = true) ->
  Inv st -> Inv (setClient st c cl).
Proof.
  intros Hc Hr [I1 I2 I3 I4 I5 I6].
  assert (G : forall d, channels (getClient (setClient st c cl) d) = channels (getClient st d)).
  { intros d; rewrite getClient_setClient. destruct (_ && _) eqn:E; auto.
    apply andb_prop in E as [E _]; apply Nat.eqb_eq in E; now subst. }
  constructor; unfold member in *; simpl; try assumption.
  - intros d n H. rewrite G. now apply I3.
  - intros d n H. rewrite G. now apply I4.
  - intros d n H. rewrite getClient_setClient. destruct (_ && _) eqn:E; eauto.
    apply andb_prop in E as [E _]; apply Nat.eqb_eq in E; subst. eauto.
  - intros d H. rewrite length_update. auto.
Qed.

Lemma Inv_initial : Inv initial.
Proof.
  constructor; unfold member; simpl; try discriminate; try tauto.
  - intros c n (ch & H & _); discriminate.
  - intros c n (ch & H & _); discriminate.
Qed.

Lemma getClient_accept st a d :
  d < length (heap st) -> getClient (accept st a) d = getClient st d.
Proof. intros H; unfold getClient, accept; simpl. now rewrite app_nth1. Qed.

Lemma In_channels_allocated st c n : In n (channels (getClient st c)) -> c < length (heap st).
Proof.
  unfold getClient; intros H.
  destruct (Nat.lt_ge_cases c (length (heap st))) as [|Hge]; auto.
  rewrite nth_overflow in H by exact Hge; destruct H.
Qed.

Lemma Inv_accept st a : Inv st -> Inv (accept st a).
Proof.
  intros [I1 I2 I3 I4 I5 I6].
  constructor; unfold member in *; simpl; try assumption.
  - intros d n H. pose proof (I3 d n H) as Hin.
    rewrite getClient_accept; eauto using In_channels_allocated.
  - intros d n Hd Hn. apply in_app_iff in Hd as [Hd|[<-|[]]].
    + rewrite getClient_accept in Hn by auto. auto.
    + unfold getClient, accept in Hn; simpl in Hn.
      rewrite app_nth2, Nat.sub_diag in Hn by lia. destruct Hn.
  - intros d n H. pose proof (I5 d n H) as Hr.
    rewrite getClient_accept; eauto using registered_allocated.
  - intros d Hd. rewrite length_app; simpl.
    apply in_app_iff in Hd as [Hd|[<-|[]]]; [apply I6 in Hd|]; lia.
Qed.

(** *** Detaching a member *)

Lemma get_dropMember m n ch c k :
  JS.get k (dropMember m n ch c) = if String.eqb n k then detached c ch else JS.get k m.
Proof.
  unfold dropMember, detached; simpl.
  destruct (JS.delete Nat.eqb c (clients ch)) as [|a l] eqn:E; simpl.
  - destruct (String.eqb_spec n k) as [->|Hne].
    + apply get_remove_same.
    + now apply get_remove_other.
  - destruct (String.eqb_spec n k) as [->|Hne].
    + apply get_set_same.
    + now apply get_set_other.
Qed.

Lemma get_detachStep c m n k :
  JS.get k (detachStep c m n) =
  if String.eqb n k then bindOpt (JS.get n m) (detached c) else JS.get k m.
Proof.
  unfold detachStep. destruct (JS.get n m) as [ch|] eqn:E.
  - rewrite get_dropMember. reflexivity.
  - destruct (String.eqb_spec n k) as [->|]; simpl; auto.
Qed.

Lemma detached_idem c ch : bindOpt (detached c ch) (detached c) = detached c ch.
Proof.
  unfold detached.
  destruct (JS.delete Nat.eqb c (clients ch)) as [|a l] eqn:E; auto.
  cbn [bindOpt]. unfold detached, withClients; cbn [clients].
  rewrite <- E, (delete_idem Nat.eqb Nat.eqb_spec), E. reflexivity.
Qed.

Lemma get_detachAll c names : forall m k,
  JS.get k (fold_left (detachStep c) names m) =
  if JS.has String.eqb k names then bindOpt (JS.get k m) (detached c) else JS.get k m.
Proof.
  induction names as [|n r IH]; intros m k; simpl; auto.
  rewrite IH, get_detachStep.
  destruct (String.eqb_spec n k) as [->|Hne].
  - rewrite String.eqb_refl; simpl.
    destruct (JS.has String.eqb k r); auto.
    destruct (JS.get k m) as [ch|]; simpl; auto using detached_idem.
  - destruct (String.eqb_spec k n); [congruence|]. simpl. reflexivity.
Qed.

Lemma detached_Some c ch ch' :
  detached c ch = Some ch' ->
  clients ch' = JS.delete Nat.eqb c (clients ch) /\ clients ch' <> []
  /\ name ch' = name ch /\ topic ch' = topic ch.
Proof.
  unfold detached. destruct (JS.delete Nat.eqb c (clients ch)) eqn:E; [discriminate|].
  intros [= <-]; simpl. repeat split; congruence.
Qed.

Lemma detached_None c ch : detached c ch = None -> forall d, In d (clients ch) -> d = c.
Proof.
  unfold detached. destruct (JS.delete Nat.eqb c (clients ch)) eqn:E; [|discriminate].
  intros _ d Hd. destruct (Nat.eq_dec d c) as [|Hne]; auto.
  assert (H : In d (JS.delete Nat.eqb c (clients ch)))
    by (apply (In_delete Nat.eqb Nat.eqb_spec); auto).
  rewrite E in H; destruct H.
Qed.

(** *** [removeClient] *)

Lemma core_removeClient st c :
  core (removeClient st c) =
  (JS.delete Nat.eqb c (srv_clients st),
   fold_left (detachStep c) (channels (getClient st c)) (srv_channels st),
   heap st).
Proof. unfold removeClient; destruct (negb _); reflexivity. Qed.

Lemma member_removeClient st c d k :
  member (removeClient st c) d k <->
  exists ch, JS.get k (srv_channels st) = Some ch /\ In d (clients ch)
             /\ (In k (channels (getClient st c)) -> d <> c).
Proof.
  unfold member.
  destruct (core_inj _ (mkServer _ _ _ []) (core_removeClient st c)) as (_ & -> & _); simpl.
  split.
  - intros (ch' & G & Hd). rewrite get_detachAll in G.
    destruct (JS.has String.eqb k (channels (getClient st c))) eqn:E.
    + destruct (JS.get k (srv_channels st)) as [ch|]; [|discriminate]. simpl in G.
      apply detached_Some in G as (Hc & _). rewrite Hc in Hd.
      apply (In_delete Nat.eqb Nat.eqb_spec) in Hd as [Hne Hd].
      exists ch; auto.
    + exists ch'; repeat split; auto. intros Hk.
      apply (has_false String.eqb String.eqb_spec) in E; tauto.
  - intros (ch & G & Hd & Hne). rewrite get_detachAll, G.
    destruct (JS.has String.eqb k (channels (getClient st c))) eqn:E; eauto.
    apply (has_In String.eqb String.eqb_spec) in E. specialize (Hne E). simpl.
    destruct (detached c ch) as [ch'|] eqn:D.
    + exists ch'; split; auto. apply detached_Some in D as (-> & _).
      apply (In_delete Nat.eqb Nat.eqb_spec); auto.
    + exfalso. apply Hne. eapply detached_None; eauto.
Qed.

Lemma Inv_removeClient st c : Inv st -> Inv (removeClient st c).
Proof.
  intros I. pose proof I as [I1 I2 I3 I4 I5 I6].
  pose proof (core_inj _ (mkServer _ _ _ []) (core_removeClient st c)) as (Hr & Hm & Hh).
  simpl in Hr, Hm, Hh.
  assert (G : forall d, getClient (removeClient st c) d = getClient st d)
    by (intros; unfold getClient; now rewrite Hh).
  assert (M : forall d k, member (removeClient st c) d k -> member st d k).
  { intros d k H; apply member_removeClient in H as (ch & ? & ? & _). exists ch; auto. }
  constructor.
  - intros k ch'. rewrite Hm, get_detachAll.
    destruct (JS.has String.eqb k _); [|apply I1].
    destruct (JS.get k (srv_channels st)); simpl; [|discriminate].
    intros D; now apply detached_Some in D.
  - intros k ch'. rewrite Hm, get_detachAll.
    destruct (JS.has String.eqb k _); [|apply I2].
    destruct (JS.get k (srv_channels st)) as [ch|] eqn:E; simpl; [|discriminate].
    intros D; apply detached_Some in D as (-> & _).
    apply NoDup_delete; eauto.
  - intros d k H. rewrite G. auto.
  - intros d k. rewrite Hr, G. intros Hd Hk.
    apply (In_delete Nat.eqb Nat.eqb_spec) in Hd as [Hne Hd].
    destruct (I4 d k Hd Hk) as (ch & ? & ?).
    apply member_removeClient. exists ch; auto.
  - intros d k H. rewrite G. eauto.
  - intros d. rewrite Hr, Hh. intros Hd.
    apply (In_delete Nat.eqb Nat.eqb_spec) in Hd as [_ Hd]. auto.
Qed.

(** *** Leaving, joining, and setting the topic *)

Lemma Inv_part st c n ch :
  Inv st -> JS.get n (srv_channels st) = Some ch -> In c (clients ch) ->
  let st1 := setChannels st (dropMember (srv_channels st) n ch c) in
  Inv (setClient st1 c
         (withChannels (getClient st1 c)
            (JS.delete String.eqb n (channels (getClient st1 c))))).
Proof.
  intros I G Hc st1. pose proof I as [I1 I2 I3 I4 I5 I6].
  assert (Ha : c < length (heap st)).
  { apply registered_allocated, (I5 c n). exists ch; auto. }
  set (st2 := setClient st1 c _).
  assert (Gc : forall d, getClient st2 d =
                         if Nat.eqb d c
                         then withChannels (getClient st c)
                                (JS.delete String.eqb n (channels (getClient st c)))
                         else getClient st d).
  { intros d; unfold st2. rewrite getClient_setClient.
    change (heap st1) with (heap st). change (getClient st1) with (getClient st).
    destruct (Nat.ltb_spec c (length (heap st))); [|lia].
    now rewrite andb_true_r. }
  assert (Gm : forall k, JS.get k (srv_channels st2) =
                         if String.eqb n k then detached c ch else JS.get k (srv_channels st)).
  { intros k. apply get_dropMember. }
  assert (M : forall d k, member st2 d k <-> member st d k /\ ~ (d = c /\ k = n)).
  { intros d k; unfold member; rewrite Gm.
    destruct (String.eqb_spec n k) as [<-|Hne].
    - split.
      + intros (ch' & D & Hd). apply detached_Some in D as (E & _). rewrite E in Hd.
        apply (In_delete Nat.eqb Nat.eqb_spec) in Hd as [? ?].
        split; [exists ch; auto|tauto].
      + intros ((ch0 & G0 & Hd) & Hn). rewrite G in G0; injection G0 as <-.
        destruct (detached c ch) as [ch'|] eqn:D.
        * exists ch'; split; auto. apply detached_Some in D as (-> & _).
          apply (In_delete Nat.eqb Nat.eqb_spec). split; [intros ->; tauto|auto].
        * exfalso. apply Hn. split; auto. eapply detached_None; eauto.
    - split; [intros H; split; auto; intros [_ ?]; congruence|tauto]. }
  constructor.
  - intros k ch'. rewrite Gm. destruct (String.eqb n k); [|apply I1].
    intros D; now apply detached_Some in D.
  - intros k ch'. rewrite Gm. destruct (String.eqb n k); [|apply I2].
    intros D; apply detached_Some in D as (-> & _). apply NoDup_delete; eauto.
  - intros d k H. apply M in H as [H Hn]. rewrite Gc.
    destruct (Nat.eqb_spec d c) as [->|]; auto. simpl.
    apply (In_delete String.eqb String.eqb_spec). split; auto.
  - intros d k Hd. rewrite Gc. intros Hk. apply M.
    destruct (Nat.eqb_spec d c) as [->|Hne].
    + simpl in Hk. apply (In_delete String.eqb String.eqb_spec) in Hk as [? ?].
      split; [auto|intros [_ ?]; congruence].
    + split; [auto|tauto].
  - intros d k H. apply M in H as [H _]. rewrite Gc.
    destruct (Nat.eqb_spec d c) as [->|]; simpl; eauto.
  - intros d Hd. unfold st2, st1; simpl. rewrite length_update. auto.
Qed.

Lemma Inv_join st c n :
  Inv st -> registered (getClient st c) = true ->
  let ch := channelFor st n in
  let st1 := setChannels st
               (JS.set n (withClients ch (JS.add Nat.eqb c (clients ch))) (srv_channels st)) in
  Inv (setClient st1 c
         (withChannels (getClient st1 c) (JS.add String.eqb n (channels (getClient st1 c))))).
Proof.
  intros I R ch st1. pose proof I as [I1 I2 I3 I4 I5 I6].
  pose proof (registered_allocated _ _ R) as Ha.
  set (st2 := setClient st1 c _).
  assert (Gc : forall d, getClient st2 d =
                         if Nat.eqb d c
                         then withChannels (getClient st c)
                                (JS.add String.eqb n (channels (getClient st c)))
                         else getClient st d).
  { intros d; unfold st2. rewrite getClient_setClient.
    change (heap st1) with (heap st). change (getClient st1) with (getClient st).
    destruct (Nat.ltb_spec c (length (heap st))); [|lia].
    now rewrite andb_true_r. }
  assert (Gm : forall k, JS.get k (srv_channels st2) =
                         if String.eqb n k
                         then Some (withClients ch (JS.add Nat.eqb c (clients ch)))
                         else JS.get k (srv_channels st)).
  { intros k. unfold st2, st1; simpl. destruct (String.eqb_spec n k) as [<-|].
    - apply get_set_same.
    - now apply get_set_other. }
  assert (Hch : forall d, In d (clients ch) <-> member st d n).
  { intros d; unfold ch, channelFor, member.
    destruct (JS.get n (srv_channels st)) as [ch0|]; simpl.
    - split; [eauto|intros (? & [= <-] & ?); auto].
    - split; [tauto|intros (? & ? & _); discriminate]. }
  assert (M : forall d k, member st2 d k <-> member st d k \/ (d = c /\ k = n)).
  { intros d k; unfold member at 1; rewrite Gm.
    destruct (String.eqb_spec n k) as [<-|Hne].
    - split.
      + intros (ch' & [= <-] & Hd). simpl in Hd.
        apply (In_add Nat.eqb Nat.eqb_spec) in Hd as [->|Hd]; auto.
        left; now apply Hch.
      + intros H. eexists; split; [reflexivity|]. simpl.
        apply (In_add Nat.eqb Nat.eqb_spec).
        destruct H as [H|[-> _]]; auto. right; now apply Hch.
    - split; [auto|intros [H|[_ ?]]; [auto|congruence]]. }
  constructor.
  - intros k ch'. rewrite Gm. destruct (String.eqb n k); [|apply I1].
    intros [= <-]; simpl. intros E.
    assert (H : In c (JS.add Nat.eqb c (clients ch)))
      by (apply (In_add Nat.eqb Nat.eqb_spec); auto).
    rewrite E in H; destruct H.
  - intros k ch'. rewrite Gm. destruct (String.eqb_spec n k) as [<-|]; [|apply I2].
    intros [= <-]; simpl. apply (NoDup_add Nat.eqb Nat.eqb_spec).
    unfold ch, channelFor. destruct (JS.get n (srv_channels st)) eqn:E; simpl; eauto.
    constructor.
  - intros d k H. apply M in H. rewrite Gc.
    destruct (Nat.eqb_spec d c) as [->|Hne]; simpl.
    + apply (In_add String.eqb String.eqb_spec).
      destruct H as [H|[_ ->]]; auto.
    + destruct H as [H|[? _]]; [auto|congruence].
  - intros d k Hd. rewrite Gc. intros Hk. apply M.
    destruct (Nat.eqb_spec d c) as [->|Hne]; simpl in Hk.
    + apply (In_add String.eqb String.eqb_spec) in Hk as [->|Hk]; auto.
    + auto.
  - intros d k H. apply M in H. rewrite Gc.
    destruct (Nat.eqb_spec d c) as [->|Hne]; simpl; auto.
    destruct H as [H|[? _]]; [eauto|congruence].
  - intros d Hd. unfold st2, st1; simpl. rewrite length_update. auto.
Qed.

Lemma Inv_setChannel st n ch ch' :
  Inv st -> JS.get n (srv_channels st) = Some ch -> clients ch' = clients ch ->
  Inv (setChannels st (JS.set n ch' (srv_channels st))).
Proof.
  intros [I1 I2 I3 I4 I5 I6] G E.
  assert (Gm : forall k, JS.get k (JS.set n ch' (srv_channels st)) =
                         if String.eqb n k then Some ch' else JS.get k (srv_channels st)).
  { intros k. destruct (String.eqb_spec n k) as [<-|].
    - apply get_set_same.
    - now apply get_set_other. }
  assert (M : forall d k, member (setChannels st (JS.set n ch' (srv_channels st))) d k
                          <-> member st d k).
  { intros d k; unfold member; simpl; rewrite Gm.
    destruct (String.eqb_spec n k) as [<-|]; [|tauto].
    split.
    - intros (? & [= <-] & Hd). rewrite E in Hd. eauto.
    - intros (? & G' & Hd). rewrite G in G'; injection G' as <-.
      exists ch'; rewrite E; auto. }
  constructor; simpl.
  - intros k c0. rewrite Gm. destruct (String.eqb n k); [|apply I1].
    intros [= <-]. rewrite E; eauto.
  - intros k c0. rewrite Gm. destruct (String.eqb n k); [|apply I2].
    intros [= <-]. rewrite E; eauto.
  - intros d k H. apply M in H. now apply I3.
  - intros d k Hd Hk. apply M. now apply I4.
  - intros d k H. apply M in H. eapply I5; eauto.
  - exact I6.
Qed.

(** *** Every handler keeps the invariant *)

Lemma core_whoLines client target l : forall st,
  core (fold_left (whoLine client target) l st) = core st.
Proof.
  induction l as [|a r IH]; intros st; simpl; auto.
  rewrite IH. unfold whoLine. destruct (JS.truthy _); auto using core_sendReply.
Qed.

Lemma core_listLines client (l : list (string * IRCChannel)) : forall st,
  core (fold_left
          (fun st' (kv : string * IRCChannel) =>
             sendReply st' client "322"
               (name (snd kv) ++ " " ++ JS.ofNat (length (clients (snd kv))) ++ " :"
                ++ JS.orElse (topic (snd kv)) EmptyString)) l st) = core st.
Proof.
  induction l as [|a r IH]; intros st; simpl; auto.
  rewrite IH. apply core_sendReply.
Qed.

Ltac strip :=
  repeat (cbv zeta;
          match goal with
          | |- Inv (sendReply _ _ _ _) => apply Inv_sendReply
          | |- Inv (notRegistered _ _) => apply Inv_sendReply
          | |- Inv (send _ _ _) => apply Inv_send
          | |- Inv (broadcastToChannel _ _ _ _) => apply Inv_broadcastToChannel
          | |- Inv (broadcastToChannelsOf _ _ _ _) => apply Inv_broadcastToChannelsOf
          | |- Inv (fold_left (whoLine _ _) _ _) =>
              eapply Inv_core; [symmetry; apply core_whoLines|]
          | |- Inv (fold_left _ (srv_channels _) _) =>
              eapply Inv_core; [symmetry; apply core_listLines|]
          | |- Inv (if ?b then _ else _) => destruct b eqn:?
          | |- Inv (match ?o with Some _ => _ | None => _ end) => destruct o eqn:?
          | |- Inv (match ?s with EmptyString => _ | String _ _ => _ end) => destruct s
          end);
  try assumption.

Lemma Inv_checkRegistration st c : Inv st -> Inv (checkRegistration st c).
Proof.
  intros I; unfold checkRegistration. strip.
  apply Inv_setClient; auto.
Qed.

Lemma Inv_handleUser st c parts : Inv st -> Inv (handleUser st c parts).
Proof.
  intros I; unfold handleUser. strip.
  apply Inv_checkRegistration, Inv_setClient; auto.
Qed.

Lemma Inv_handleNick st c parts : Inv st -> Inv (handleNick st c parts).
Proof.
  intros I; unfold handleNick. strip.
  apply Inv_checkRegistration. strip; apply Inv_setClient; auto.
Qed.

Lemma memberOf_Some st c n ch :
  memberOf st c n = Some ch <-> JS.get n (srv_channels st) = Some ch /\ In c (clients ch).
Proof.
  unfold memberOf. destruct (JS.get n (srv_channels st)) as [ch0|]; [|intuition discriminate].
  destruct (JS.has Nat.eqb c (clients ch0)) eqn:E.
  - apply (has_In Nat.eqb Nat.eqb_spec) in E. split.
    + intros [= <-]; auto.
    + intros [[= <-] _]; auto.
  - apply (has_false Nat.eqb Nat.eqb_spec) in E. split; [discriminate|].
    intros [[= <-] ?]; tauto.
Qed.

Lemma memberOf_None st c n : memberOf st c n = None <-> ~ member st c n.
Proof.
  unfold member. split.
  - intros E (ch & G & H). assert (memberOf st c n = Some ch) by (apply memberOf_Some; auto).
    congruence.
  - intros H. destruct (memberOf st c n) as [ch|] eqn:E; auto.
    apply memberOf_Some in E. exfalso; apply H; eauto.
Qed.

Lemma Inv_handleJoin st c parts : Inv st -> Inv (handleJoin st c parts).
Proof.
  intros I; unfold handleJoin.
  destruct (registered (getClient st c)) eqn:R; simpl; [|strip].
  destruct (length parts <? 2)%nat; [strip|].
  destruct (JS.startsWith _ "#"); simpl; [|strip].
  set (n := nth 1 parts EmptyString).
  pose proof (Inv_join st c n I R) as J. unfold channelFor in J.
  destruct (JS.get n (srv_channels st)) as [ch|] eqn:G.
  - destruct (JS.has Nat.eqb c (clients ch)); [assumption|]. strip; exact J.
  - simpl. strip;
      (eapply Inv_core; [|exact J]; unfold core; simpl; now rewrite set_set).
Qed.

Lemma Inv_handlePart st c parts : Inv st -> Inv (handlePart st c parts).
Proof.
  intros I; unfold handlePart.
  destruct (registered (getClient st c)) eqn:R; simpl; [|strip].
  destruct (length parts <? 2)%nat; [strip|].
  set (n := nth 1 parts EmptyString).
  destruct (memberOf st c n) as [ch|] eqn:M; [|strip].
  apply memberOf_Some in M as [G Hc].
  cbv zeta.
  match goal with |- context [broadcastToChannel st ch ?m None] => set (msg := m) end.
  pose proof (Inv_part st c n ch I G Hc) as J.
  eapply Inv_core; [|exact J].
  pose proof (core_inj _ _ (core_broadcastToChannel st ch msg None)) as (Hr & Hm & Hh).
  unfold core, getClient; simpl. now rewrite Hr, Hm, Hh.
Qed.

Lemma Inv_handleTopic st c parts : Inv st -> Inv (handleTopic st c parts).
Proof.
  intros I; unfold handleTopic.
  destruct (registered (getClient st c)) eqn:R; simpl; [|strip].
  destruct (length parts <? 2)%nat; [strip|].
  destruct (memberOf st c _) as [ch|] eqn:M; [|strip].
  apply memberOf_Some in M as [G Hc].
  strip. eapply Inv_setChannel; eauto.
Qed.

Lemma Inv_handleQuit st c parts : Inv st -> Inv (handleQuit st c parts).
Proof.
  intros I; unfold handleQuit. cbv zeta.
  apply Inv_removeClient. strip.
Qed.

Lemma Inv_handleMessage st c m : Inv st -> Inv (handleMessage st c m).
Proof.
  intros I; unfold handleMessage; cbv zeta.
  repeat match goal with
         | |- Inv (if ?b then _ else _) => destruct b
         end;
    auto using Inv_handleUser, Inv_handleNick, Inv_handleJoin, Inv_handlePart,
      Inv_handleTopic, Inv_handleQuit, Inv_sendReply.
  - unfold handlePrivmsg, memberOf; strip.
  - unfold handlePing; strip.
  - unfold handleWho, memberOf; strip.
  - unfold handleWhois; strip.
  - unfold handleList; strip.
  - unfold handleMode, memberOf; strip.
Qed.

Lemma Inv_step st e : Inv st -> Inv (step st e).
Proof.
  intros I; destruct e; simpl;
    try (destruct (allocated st client));
    auto using Inv_accept, Inv_handleMessage, Inv_removeClient, Inv_setSocket.
Qed.

Lemma Inv_run es : forall st, Inv st -> Inv (run es st).
Proof.
  unfold run; induction es as [|e r IH]; intros st I; simpl; auto using Inv_step.
Qed.

Lemma Inv_reachable st : reachable st -> Inv st.
Proof. intros (es & <-). apply Inv_run, Inv_initial. Qed.

(** ** Reachable states *)

Lemma reachable_run es : reachable (run es initial).
Proof. exists es; reflexivity. Defined.

(** ** Channel directory and membership (C4) *)

Lemma In_membersOf st c n : In c (membersOf st n) <-> member st c n.
Proof.
  unfold membersOf, member.
  destruct (JS.get n (srv_channels st)) as [ch|]; simpl.
  - split; [eauto|intros (? & [= <-] & ?); auto].
  - split; [tauto|intros (? & ? & _); discriminate].
Qed.

Lemma directory_nonempty st :
  Inv st -> forall n, JS.get n (srv_channels st) <> None <-> membersOf st n <> [].
Proof.
  intros [I1 _ _ _ _ _] n; unfold membersOf.
  destruct (JS.get n (srv_channels st)) as [ch|] eqn:G.
  - split; [eauto|discriminate].
  - split; congruence.
Qed.




(** ** Nickname collisions (C3) *)

Lemma getSocket_sendReply st c code m d :
  getSocket (sendReply st c code m) d =
  if Nat.eqb d c
  then deliver (":" ++ serverName ++ " " ++ code ++ " "
                ++ JS.orElse (nickname (getClient st c)) "*" ++ " " ++ m) (getSocket st c)
  else getSocket st d.
Proof. apply getSocket_send. Qed.

Lemma nickInUse_true st c other newNick :
  In other (srv_clients st) -> other <> c ->
  nickname (getClient st other) = Some newNick ->
  nickInUse st c newNick = true.
Proof.
  intros Hin Hne Hn. unfold nickInUse. apply existsb_exists. exists other; split; auto.
  apply andb_true_intro; split.
  - apply negb_true_iff, Nat.eqb_neq; exact Hne.
  - rewrite Hn; simpl. apply String.eqb_refl.
Qed.

(** C3.  A NICK asking for the nickname that another client of the
    registry currently holds is answered with 433 and nothing else
    happens: both registries and every client record (the requester's
    nickname and registered flag, and the holder's, among them) are what
    they were, and no socket but the requester's is written to. *)
Theorem nick_collision_rejected st c other verb newNick rest :
  In other (srv_clients st) -> other <> c ->
  nickname (getClient st other) = Some newNick ->
  let st' := handleNick st c (verb :: newNick :: rest) in
  st' = sendReply st c "433" (newNick ++ " :Nickname is already in use")
  /\ core st' = core st
  /\ getClient st' c = getClient st c
  /\ getClient st' other = getClient st other
  /\ (forall d, d <> c -> getSocket st' d = getSocket st d)
  /\ getSocket st' c =
     deliver (":" ++ serverName ++ " 433 " ++ JS.orElse (nickname (getClient st c)) "*"
              ++ " " ++ newNick ++ " :Nickname is already in use") (getSocket st c).
Proof.
  intros Hin Hne Hn st'.
  assert (E : st' = sendReply st c "433" (newNick ++ " :Nickname is already in use")).
  { unfold st', handleNick; simpl.
    now rewrite (nickInUse_true st c other newNick Hin Hne Hn). }
  assert (C : core st' = core st) by (rewrite E; apply core_sendReply).
  repeat split; auto using getClient_core.
  - intros d Hd. rewrite E, getSocket_sendReply.
    destruct (Nat.eqb_spec d c); congruence.
  - rewrite E, getSocket_sendReply, Nat.eqb_refl. reflexivity.
Qed.

Lemma nick_collision_rejected_witness :
  let st' := handleNick stTwo 1 ["NICK"; "alice"] in
  st' = sendReply stTwo 1 "433" "alice :Nickname is already in use"
  /\ core st' = core stTwo
  /\ getClient st' 1 = getClient stTwo 1
  /\ getClient st' 0 = getClient stTwo 0
  /\ (forall d, d <> 1 -> getSocket st' d = getSocket stTwo d)
  /\ getSocket st' 1 =
     deliver (":" ++ serverName ++ " 433 " ++ JS.orElse (nickname (getClient stTwo 1)) "*"
              ++ " " ++ "alice" ++ " :Nickname is already in use") (getSocket stTwo 1).
Proof.
  apply (nick_collision_rejected stTwo 1 0 "NICK" "alice" []).
  - vm_compute; auto.
  - lia.
  - reflexivity.
Defined.

(** ** Commands before registration (C5) *)






(** ** Registration: the two handlers *)

Lemma wire_deliverAll messages : forall s,
  writable s = true ->
  wire (deliverAll messages s) = (wire s ++ map (fun m => (m ++ CRLF)%string) messages)%list
  /\ writable (deliverAll messages s) = true.
Proof.
  unfold deliverAll; induction messages as [|m r IH]; intros s W; simpl.
  - now rewrite app_nil_r.
  - destruct (IH (deliver m s)) as [E W']; [now rewrite writable_deliver|].
    rewrite E. split; auto. unfold deliver; rewrite W; simpl.
    now rewrite <- app_assoc.
Qed.


Lemma truthy_Some o : JS.truthy o = true -> exists s, o = Some s /\ JS.orElse o "*" = s.
Proof. destruct o as [[|a r]|]; simpl; try discriminate. eauto. Qed.

Lemma checkRegistration_registered st c :
  registered (getClient st c) = true -> checkRegistration st c = st.
Proof. intros R; unfold checkRegistration; now rewrite R. Qed.

Lemma checkRegistration_absent st c :
  present (getClient st c) = false -> checkRegistration st c = st.
Proof.
  unfold present, checkRegistration; intros P.
  now rewrite <- andb_assoc, P, andb_false_r.
Qed.

Lemma getClient_send st c m d : getClient (send st c m) d = getClient st d.
Proof. apply getClient_core, core_send. Qed.

Lemma getClient_sendReply st c code m d : getClient (sendReply st c code m) d = getClient st d.
Proof. apply getClient_send. Qed.

Lemma wire_deliver m s :
  writable s = true -> wire (deliver m s) = (wire s ++ [(m ++ CRLF)%string])%list.
Proof. intros W; unfold deliver; now rewrite W. Qed.

(** What [checkRegistration] does at the moment of promotion. *)
Lemma checkRegistration_promotes st c :
  registered (getClient st c) = false -> present (getClient st c) = true ->
  let st' := checkRegistration st c in
  getClient st' c = withRegistered (getClient st c) true
  /\ (forall d, d <> c -> getClient st' d = getClient st d)
  /\ (forall d, d <> c -> getSocket st' d = getSocket st d)
  /\ exists nick user,
      nickname (getClient st c) = Some nick /\ username (getClient st c) = Some user
      /\ getSocket st' c
         = deliverAll (welcomeLines nick user (hostname (getClient st c))) (getSocket st c).
Proof.
  intros R P st'.
  assert (Ha : c < length (heap st)).
  { unfold getClient in P. destruct (Nat.lt_ge_cases c (length (heap st))); auto.
    rewrite nth_overflow in P by auto. discriminate. }
  unfold present in P. apply andb_prop in P as [Pn Pu].
  destruct (truthy_Some _ Pn) as (nick & En & On).
  destruct (truthy_Some _ Pu) as (user & Eu & _).
  set (st1 := setClient st c (withRegistered (getClient st c) true)).
  assert (G1 : getClient st1 c = withRegistered (getClient st c) true)
    by (apply getClient_setClient_same; auto).
  assert (E : st' =
              sendReply (sendReply (sendReply (sendReply st1 c "001"
                (":Welcome to the Comic Chat IRC Network " ++ nick ++ "!" ++ user ++ "@"
                 ++ hostname (getClient st c))) c "002"
                (":Your host is " ++ serverName ++ ", running version " ++ version)) c "003"
                ":This server was created for Microsoft Comic Chat compatibility") c "004"
                (serverName ++ " " ++ version ++ " - -")).
  { unfold st', checkRegistration. rewrite R, Pn, Pu. cbv zeta. fold st1.
    rewrite G1; simpl. rewrite En, Eu. reflexivity. }
  assert (C : core st' = core st1) by (rewrite E; now rewrite !core_sendReply).
  split; [now rewrite (getClient_core _ _ c C)|].
  split; [intros d Hd; rewrite (getClient_core _ _ d C);
          apply getClient_setClient_other; congruence|].
  split.
  - intros d Hd. rewrite E, !getSocket_sendReply.
    destruct (Nat.eqb_spec d c); [congruence|reflexivity].
  - exists nick, user. repeat split; auto.
    rewrite E. rewrite !getSocket_sendReply, !Nat.eqb_refl.
    rewrite !getClient_sendReply, G1; simpl nickname. rewrite On.
    reflexivity.
Qed.

(** The excluded client's own socket is never written by a broadcast. *)
Lemma getSocket_broadcast_excluded st ch m c :
  getSocket (broadcastToChannel st ch m (Some c)) c = getSocket st c.
Proof.
  unfold broadcastToChannel. generalize (clients ch) as l. intros l; revert st.
  induction l as [|a r IH]; intros st; simpl; auto.
  rewrite IH. destruct (Nat.eqb_spec a c) as [->|Hne]; simpl; auto.
  destruct (writable (getSocket st a)); auto.
  rewrite getSocket_send. destruct (Nat.eqb_spec c a); congruence.
Qed.

Lemma getSocket_broadcastToChannelsOf_self st names m c :
  getSocket (broadcastToChannelsOf st names m c) c = getSocket st c.
Proof.
  unfold broadcastToChannelsOf; revert st.
  induction names as [|n r IH]; intros st; simpl; auto.
  rewrite IH. destruct (JS.get n (srv_channels st)); auto using getSocket_broadcast_excluded.
Qed.

(** Promotion after one of the two identity fields has been written. *)
Lemma promotion_after_update st c cl' :
  registered cl' = false -> hostname cl' = hostname (getClient st c) ->
  let st' := checkRegistration (setClient st c cl') c in
  present (getClient st' c) = true ->
  getClient st' c = withRegistered cl' true
  /\ (forall d, d <> c -> getSocket st' d = getSocket st d)
  /\ exists nick user,
      nickname cl' = Some nick /\ username cl' = Some user
      /\ getSocket st' c = deliverAll (welcomeLines nick user (hostname cl')) (getSocket st c).
Proof.
  intros R Hh st' P.
  set (st1 := setClient st c cl') in *.
  assert (Ha : c < length (heap st)).
  { destruct (Nat.lt_ge_cases c (length (heap st))) as [|Hge]; auto.
    assert (N : forall s, length (heap s) = length (heap st) -> getClient s c = noClient)
      by (intros s Hs; unfold getClient; apply nth_overflow; lia).
    assert (L1 : length (heap st1) = length (heap st)) by apply length_update.
    assert (E : st' = st1).
    { apply checkRegistration_absent. now rewrite (N st1 L1). }
    rewrite E, (N st1 L1) in P. discriminate. }
  assert (G1 : getClient st1 c = cl') by (apply getClient_setClient_same; auto).
  assert (P1 : present (getClient st1 c) = true).
  { destruct (present (getClient st1 c)) eqn:E; auto.
    unfold st' in P. rewrite (checkRegistration_absent _ _ E) in P. congruence. }
  assert (R1 : registered (getClient st1 c) = false) by now rewrite G1.
  destruct (checkRegistration_promotes st1 c R1 P1) as (Gc & _ & Gs & nick & user & En & Eu & Hw).
  fold st' in Gc, Gs, Hw. rewrite G1 in *.
  split; [exact Gc|]. split; [exact Gs|].
  exists nick, user. repeat split; auto.
Qed.

(** *** The registered flag never goes back *)

Lemma keepsRegistered_core st st' : core st = core st' -> keepsRegistered st st'.
Proof. intros H d; now rewrite (getClient_core _ _ d H). Qed.

Lemma keepsRegistered_trans a b c :
  keepsRegistered a b -> keepsRegistered b c -> keepsRegistered a c.
Proof. unfold keepsRegistered; auto. Qed.

Lemma keepsRegistered_setClient st c cl :
  (registered (getClient st c) = true -> registered cl = true) ->
  keepsRegistered st (setClient st c cl).
Proof.
  intros H d R. rewrite getClient_setClient. destruct (_ && _) eqn:E; auto.
  apply andb_prop in E as [E _]; apply Nat.eqb_eq in E; subst; auto.
Qed.

Lemma keepsRegistered_setChannels st m : keepsRegistered st (setChannels st m).
Proof. intros d R; exact R. Qed.

Lemma getClient_removeClient st c d : getClient (removeClient st c) d = getClient st d.
Proof.
  unfold getClient.
  now destruct (core_inj _ (mkServer _ _ _ []) (core_removeClient st c)) as (_ & _ & ->).
Qed.

Lemma keepsRegistered_removeClient st c : keepsRegistered st (removeClient st c).
Proof. intros d R; now rewrite getClient_removeClient. Qed.

Ltac keep :=
  repeat (cbv zeta;
          match goal with
          | |- keepsRegistered ?s ?s => intros ? ?; assumption
          | |- keepsRegistered _ (sendReply _ _ _ _) =>
              eapply keepsRegistered_trans;
              [|apply keepsRegistered_core; symmetry; apply core_sendReply]
          | |- keepsRegistered _ (notRegistered _ _) =>
              eapply keepsRegistered_trans;
              [|apply keepsRegistered_core; symmetry; apply core_sendReply]
          | |- keepsRegistered _ (send _ _ _) =>
              eapply keepsRegistered_trans;
              [|apply keepsRegistered_core; symmetry; apply core_send]
          | |- keepsRegistered _ (broadcastToChannel _ _ _ _) =>
              eapply keepsRegistered_trans;
              [|apply keepsRegistered_core; symmetry; apply core_broadcastToChannel]
          | |- keepsRegistered _ (broadcastToChannelsOf _ _ _ _) =>
              eapply keepsRegistered_trans;
              [|apply keepsRegistered_core; symmetry; apply core_broadcastToChannelsOf]
          | |- keepsRegistered _ (fold_left (whoLine _ _) _ _) =>
              eapply keepsRegistered_trans;
              [|apply keepsRegistered_core; symmetry; apply core_whoLines]
          | |- keepsRegistered _ (fold_left _ (srv_channels _) _) =>
              eapply keepsRegistered_trans;
              [|apply keepsRegistered_core; symmetry; apply core_listLines]
          | |- keepsRegistered _ (setChannels _ _) =>
              eapply keepsRegistered_trans;
              [|apply keepsRegistered_setChannels]
          | |- keepsRegistered _ (setClient _ _ _) =>
              eapply keepsRegistered_trans;
              [|apply keepsRegistered_setClient; simpl; auto]
          | |- keepsRegistered _ (removeClient _ _) =>
              eapply keepsRegistered_trans;
              [|apply keepsRegistered_removeClient]
          | |- keepsRegistered _ (if ?b then _ else _) => destruct b eqn:?
          | |- keepsRegistered _ (match ?o with Some _ => _ | None => _ end) =>
              destruct o eqn:?
          | |- keepsRegistered _ (match ?s with EmptyString => _ | String _ _ => _ end) =>
              destruct s
          end).

Lemma keepsRegistered_checkRegistration st c : keepsRegistered st (checkRegistration st c).
Proof. unfold checkRegistration. keep. Qed.

Lemma keepsRegistered_handleUser st c parts : keepsRegistered st (handleUser st c parts).
Proof.
  unfold handleUser. keep.
  eapply keepsRegistered_trans; [|apply keepsRegistered_checkRegistration]. keep.
Qed.

Lemma keepsRegistered_handleNick st c parts : keepsRegistered st (handleNick st c parts).
Proof.
  unfold handleNick. keep;
    (eapply keepsRegistered_trans; [|apply keepsRegistered_checkRegistration]); keep.
Qed.

Lemma keepsRegistered_handleMessage st c m : keepsRegistered st (handleMessage st c m).
Proof.
  unfold handleMessage; cbv zeta.
  repeat match goal with
         | |- keepsRegistered _ (if ?b then _ else _) => destruct b
         end.
  - apply keepsRegistered_handleUser.
  - apply keepsRegistered_handleNick.
  - unfold handleJoin.
    destruct (JS.get (nth 1 (JS.split m) EmptyString) (srv_channels st)); keep.
  - unfold handlePart, memberOf. keep.
  - unfold handlePrivmsg, memberOf. keep.
  - unfold handlePing. keep.
  - unfold handleQuit. keep.
  - unfold handleWho, memberOf. keep.
  - unfold handleWhois. keep.
  - unfold handleList. keep.
  - unfold handleTopic, memberOf. keep.
  - unfold handleMode, memberOf. keep.
  - keep.
Qed.

Lemma keepsRegistered_step st e : keepsRegistered st (step st e).
Proof.
  destruct e; simpl; try (destruct (allocated st client));
    auto using keepsRegistered_handleMessage, keepsRegistered_removeClient;
    try (intros d R; exact R).
  intros d R. rewrite getClient_accept; auto using registered_allocated.
Qed.

Lemma keepsRegistered_run es : forall st, keepsRegistered st (run es st).
Proof.
  unfold run; induction es as [|e r IH]; intros st; simpl.
  - intros d R; exact R.
  - eapply keepsRegistered_trans; [apply keepsRegistered_step|apply IH].
Qed.

Lemma handleNick_promotes st c parts :
  registered (getClient st c) = false -> present (getClient st c) = false ->
  present (getClient (handleNick st c parts) c) = true ->
  promoted st (handleNick st c parts) c.
Proof.
  intros R P P'. unfold handleNick in *.
  destruct (length parts <? 2)%nat; [rewrite getClient_sendReply in P'; congruence|].
  destruct (nickInUse st c _); [rewrite getClient_sendReply in P'; congruence|].
  cbv zeta in *. rewrite R in *. simpl andb in *. cbv iota in *.
  set (cl' := withNickname (getClient st c) (Some (nth 1 parts EmptyString))) in *.
  destruct (promotion_after_update st c cl' R eq_refl P')
    as (G & Hs & nick & user & Hn & Hu & Hw).
  split; [now rewrite G|]. split; [exact Hs|].
  exists nick, user. rewrite G. auto.
Qed.

Lemma handleUser_promotes st c parts :
  registered (getClient st c) = false -> present (getClient st c) = false ->
  present (getClient (handleUser st c parts) c) = true ->
  promoted st (handleUser st c parts) c.
Proof.
  intros R P P'. unfold handleUser in *.
  destruct (length parts <? 5)%nat; [rewrite getClient_sendReply in P'; congruence|].
  cbv zeta in *.
  set (cl' := withUser (getClient st c) _ _) in *.
  destruct (promotion_after_update st c cl' R eq_refl P')
    as (G & Hs & nick & user & Hn & Hu & Hw).
  split; [now rewrite G|]. split; [exact Hs|].
  exists nick, user. rewrite G. auto.
Qed.

(** The third connection completes its registration with [NICK carol]. *)
Example welcome_carol :
  wire (getSocket (handleMessage stUserSent 2 "NICK carol") 2)
  = map (fun l => (l ++ CRLF)%string) (welcomeLines "carol" "carol" "unknown")
  /\ welcomeLines "carol" "carol" "unknown"
     = [":irc.comicserver.local 001 carol :Welcome to the Comic Chat IRC Network carol!carol@unknown";
        ":irc.comicserver.local 002 carol :Your host is irc.comicserver.local, running version 1.0.0";
        ":irc.comicserver.local 003 carol :This server was created for Microsoft Comic Chat compatibility";
        ":irc.comicserver.local 004 carol irc.comicserver.local 1.0.0 - -"].
Proof. vm_compute; auto. Qed.

(** ** Channel messages: membership lookups *)

Lemma memberOf_membersOf st c n ch :
  memberOf st c n = Some ch -> membersOf st n = clients ch /\ In c (membersOf st n).
Proof.
  intros M; apply memberOf_Some in M as [G H]. unfold membersOf; rewrite G; auto.
Qed.

Lemma memberOf_not_member st c n : ~ In c (membersOf st n) -> memberOf st c n = None.
Proof.
  intros H. destruct (memberOf st c n) as [ch|] eqn:M; auto.
  apply memberOf_membersOf in M as [_ ?]; contradiction.
Qed.

Lemma memberOf_member st c n :
  In c (membersOf st n) -> exists ch, memberOf st c n = Some ch /\ clients ch = membersOf st n.
Proof.
  unfold membersOf. destruct (JS.get n (srv_channels st)) as [ch|] eqn:G; [|intros []].
  intros H. exists ch; split; auto. apply memberOf_Some; auto.
Qed.

(** bob's message reaches alice and is not echoed to bob; the third
    connection, once registered as carol and not in [#test], is refused. *)
Example privmsg_hi :
  let st' := handleMessage stTwo 1 "PRIVMSG #test :hi" in
  wire (getSocket st' 0)
  = (wire (getSocket stTwo 0) ++ [(":bob!bob@10.0.0.2 PRIVMSG #test :hi" ++ CRLF)%string])%list
  /\ getSocket st' 1 = getSocket stTwo 1
  /\ (let st := handleMessage stUserSent 2 "NICK carol" in
      let st'' := handleMessage st 2 "PRIVMSG #test :hi" in
      wire (getSocket st'' 2)
      = (wire (getSocket st 2) ++ [numeric "404" "carol" "#test :Cannot send to channel"])%list
      /\ getSocket st'' 0 = getSocket st 0 /\ getSocket st'' 1 = getSocket st 1).
Proof. vm_compute; auto. Qed.

(** bob sends [PRIVMSG #test hello world]: alice is relayed [ello world]. *)
Example privmsg_hello_world :
  wire (getSocket (handleMessage stTwo 1 "PRIVMSG #test hello world") 0)
  = (wire (getSocket stTwo 0)
     ++ [(":bob!bob@10.0.0.2 PRIVMSG #test :ello world" ++ CRLF)%string])%list.
Proof. vm_compute; reflexivity. Qed.

(** ** Leaving a channel: the handler *)

Lemma all_same_NoDup (c : conn) l :
  NoDup l -> In c l -> (forall d, In d l -> d = c) -> l = [c].
Proof.
  intros ND Hc H. destruct l as [|a [|b r]]; simpl in *; try tauto.
  - destruct Hc as [->|[]]; auto.
  - exfalso. inversion ND as [|? ? Hn _]; subst. apply Hn.
    rewrite (H a), (H b); simpl; auto.
Qed.

(** PART by a member, at the level of the handler: who is sent the
    notice, and what becomes of the member set and of the directory. *)
Lemma handlePart_effect st c parts :
  reachable st ->
  2 <= length parts ->
  In c (membersOf st (nth 1 parts EmptyString)) ->
  let n := nth 1 parts EmptyString in
  let st' := handlePart st c parts in
  (forall d, getSocket st' d =
             if JS.has Nat.eqb d (membersOf st n)
             then deliver (partLine (getClient st c) parts) (getSocket st d)
             else getSocket st d)
  /\ (membersOf st n = [c] -> JS.get n (srv_channels st') = None)
  /\ (membersOf st n <> [c] ->
      JS.get n (srv_channels st') <> None
      /\ membersOf st' n = JS.delete Nat.eqb c (membersOf st n)
      /\ S (length (membersOf st' n)) = length (membersOf st n))
  /\ ~ In c (membersOf st' n)
  /\ ~ In n (channels (getClient st' c))
  /\ (forall k, k <> n -> JS.get k (srv_channels st') = JS.get k (srv_channels st)).
Proof.
  intros Rch L Hm n st'. fold n in Hm.
  apply Inv_reachable in Rch as [_ I2 _ _ I5 _].
  destruct (memberOf_member _ _ _ Hm) as (ch & M & Hc).
  pose proof M as M'. apply memberOf_Some in M' as [G Hin].
  assert (R : registered (getClient st c) = true) by (apply (I5 c n); exists ch; auto).
  pose proof (registered_allocated _ _ R) as Ha.
  pose proof (I2 _ _ G) as ND.
  set (line := partLine (getClient st c) parts).
  set (st1 := broadcastToChannel st ch line None).
  assert (C1 : core st1 = core st) by apply core_broadcastToChannel.
  apply core_inj in C1 as (Hr1 & Hm1 & Hh1).
  assert (E : st' =
              setClient (setChannels st1 (dropMember (srv_channels st1) n ch c)) c
                (withChannels (getClient st1 c)
                   (JS.delete String.eqb n (channels (getClient st1 c))))).
  { unfold st', handlePart. rewrite R; simpl negb; cbv iota.
    destruct (Nat.ltb_spec (length parts) 2); [lia|].
    cbv zeta. fold n. rewrite M. reflexivity. }
  assert (Gm : forall k, JS.get k (srv_channels st') =
                         if String.eqb n k then detached c ch else JS.get k (srv_channels st)).
  { intros k. rewrite E; simpl. rewrite Hm1. apply get_dropMember. }
  assert (Gc : getClient st' c =
               withChannels (getClient st c)
                 (JS.delete String.eqb n (channels (getClient st c)))).
  { rewrite E, getClient_setClient_same by (simpl; now rewrite Hh1).
    unfold getClient; now rewrite Hh1. }
  split; [|split; [|split; [|split; [|split]]]].
  - intros d. rewrite E.
    change (getSocket (setClient _ _ _) d) with (getSocket st1 d).
    unfold st1. rewrite getSocket_broadcastToChannel by exact ND.
    rewrite Hc. simpl. now rewrite andb_true_r.
  - intros H1. rewrite Gm, String.eqb_refl. unfold detached.
    rewrite Hc, H1; simpl. now rewrite Nat.eqb_refl.
  - intros Hne.
    destruct (detached c ch) as [ch'|] eqn:D.
    + apply detached_Some in D as (Dc & _).
      assert (Mn : membersOf st' n = JS.delete Nat.eqb c (membersOf st n))
        by (unfold membersOf at 1; rewrite Gm, String.eqb_refl, <- Hc; exact Dc).
      split; [rewrite Gm, String.eqb_refl; discriminate|].
      split; [exact Mn|].
      rewrite Mn, <- Hc. apply (length_delete Nat.eqb Nat.eqb_spec); auto.
    + exfalso. apply Hne. rewrite <- Hc.
      apply all_same_NoDup; auto. eapply detached_None; eauto.
  - unfold membersOf. rewrite Gm, String.eqb_refl.
    destruct (detached c ch) as [ch'|] eqn:D; [|tauto].
    apply detached_Some in D as (-> & _).
    rewrite (In_delete Nat.eqb Nat.eqb_spec). tauto.
  - rewrite Gc; simpl. rewrite (In_delete String.eqb String.eqb_spec). tauto.
  - intros k Hk. rewrite Gm. destruct (String.eqb_spec n k); congruence.
Qed.

(** alice parts while bob is there, then bob parts as the last member. *)
Example part_twice :
  membersOf (run [Line 0 "PART #test"] stTwo) "#test" = [1]
  /\ JS.get "#test" (srv_channels (run [Line 0 "PART #test"; Line 1 "PART #test"] stTwo)) = None
  /\ wire (getSocket (run [Line 0 "PART #test :bye now"] stTwo) 0)
     = (wire (getSocket stTwo 0)
        ++ [(":alice!alice@10.0.0.1 PART #test :bye now" ++ CRLF)%string])%list.
Proof. vm_compute; auto. Qed.

(** ** WHO (C8) *)




(** alice asks who is in [#test]: one line for herself, one for bob, and
    the end marker. *)
Example who_test :
  wire (getSocket (handleMessage stTwo 0 "WHO #test") 0)
  = (wire (getSocket stTwo 0)
     ++ [numeric "352" "alice"
           "#test alice 10.0.0.1 irc.comicserver.local alice H :0 Alice A";
         numeric "352" "alice" "#test bob 10.0.0.2 irc.comicserver.local bob H :0 Bob B";
         numeric "315" "alice" "#test :End of /WHO list"])%list.
Proof. vm_compute; reflexivity. Qed.


(** ** Nickname changes (C9) *)

Lemma membersOf_channels st st' n :
  srv_channels st' = srv_channels st -> membersOf st' n = membersOf st n.
Proof. intros H; unfold membersOf; now rewrite H. Qed.

Lemma getSocket_broadcastToChannelsOf m c names : forall st d,
  (forall n ch, JS.get n (srv_channels st) = Some ch -> NoDup (clients ch)) ->
  d <> c ->
  getSocket (broadcastToChannelsOf st names m c) d
  = deliverAll (repeat m (sharedWith st names d)) (getSocket st d).
Proof.
  unfold broadcastToChannelsOf, sharedWith.
  induction names as [|n r IH]; intros st d ND Hd; simpl; [reflexivity|].
  set (st1 := match JS.get n (srv_channels st) with
              | Some ch => broadcastToChannel st ch m (Some c)
              | None => st
              end).
  assert (C1 : srv_channels st1 = srv_channels st).
  { unfold st1. destruct (JS.get n (srv_channels st)); auto.
    now destruct (core_inj _ _ (core_broadcastToChannel st i m (Some c))) as (_ & ? & _). }
  assert (S1 : getSocket st1 d =
               if JS.has Nat.eqb d (membersOf st n)
               then deliver m (getSocket st d) else getSocket st d).
  { unfold st1, membersOf. destruct (JS.get n (srv_channels st)) as [ch|] eqn:G; simpl; auto.
    rewrite getSocket_broadcastToChannel by eauto. simpl.
    destruct (Nat.eqb_spec d c); [contradiction|]. now rewrite andb_true_r. }
  rewrite IH by (try rewrite C1; auto).
  rewrite S1.
  rewrite (filter_ext _ (fun k => JS.has Nat.eqb d (membersOf st k)))
    by (intros k; now rewrite (membersOf_channels st st1 k C1)).
  destruct (JS.has Nat.eqb d (membersOf st n)); reflexivity.
Qed.

(** C9, as the code has it.  In a reachable state, when a registered
    client whose current nickname [old] is non-empty sends a NICK that is
    accepted: its nickname becomes the new one; the notice
    [:old!user@host NICK :new], prefixed with the old nickname, is written
    to every other connection once for each channel of the client's
    joined-channel set that has that connection as a member (so every
    other member of every channel the client occupies receives it); the
    client's own socket is not written to. *)
Theorem nick_change_notice st c parts old :
  reachable st ->
  registered (getClient st c) = true ->
  nickname (getClient st c) = Some old -> old <> EmptyString ->
  2 <= length parts ->
  nickInUse st c (nth 1 parts EmptyString) = false ->
  let cl := getClient st c in
  let newNick := nth 1 parts EmptyString in
  let notice := ":" ++ old ++ "!" ++ JS.tpl (username cl) ++ "@" ++ hostname cl
                ++ " NICK :" ++ newNick in
  let st' := handleNick st c parts in
  nickname (getClient st' c) = Some newNick
  /\ getSocket st' c = getSocket st c
  /\ (forall d, d <> c ->
                getSocket st' d
                = deliverAll (repeat notice (sharedWith st (channels cl) d)) (getSocket st d))
  /\ (forall n d, In n (channels cl) -> In d (membersOf st n) ->
                  1 <= sharedWith st (channels cl) d).
Proof.
  intros Rch R Hn Ho L U cl newNick notice st'.
  apply Inv_reachable in Rch as [_ I2 _ _ _ _].
  pose proof (registered_allocated _ _ R) as Ha.
  set (st1 := setClient st c (withNickname cl (Some newNick))).
  assert (T : JS.truthy (nickname cl) = true).
  { unfold cl; rewrite Hn. destruct old; [congruence|reflexivity]. }
  assert (G1 : getClient st1 c = withNickname cl (Some newNick))
    by (apply getClient_setClient_same; auto).
  assert (E : st' = broadcastToChannelsOf st1 (channels cl) notice c).
  { unfold st', handleNick.
    destruct (Nat.ltb_spec (length parts) 2); [lia|].
    rewrite U. cbv zeta. unfold cl in T. rewrite R, T; simpl andb; cbv iota.
    rewrite checkRegistration_registered.
    - rewrite Hn. reflexivity.
    - erewrite getClient_core by apply core_broadcastToChannelsOf.
      rewrite getClient_setClient_same by auto. exact R. }
  split; [|split; [|split]].
  - rewrite E, (getClient_core _ st1 c) by apply core_broadcastToChannelsOf.
    now rewrite G1.
  - rewrite E, getSocket_broadcastToChannelsOf_self. reflexivity.
  - intros d Hd. rewrite E.
    rewrite getSocket_broadcastToChannelsOf by (try exact I2; auto).
    reflexivity.
  - intros n d Hin Hm. unfold sharedWith.
    assert (H : In n (filter (fun k => JS.has Nat.eqb d (membersOf st k)) (channels cl))).
    { apply filter_In; split; auto. now apply (has_In Nat.eqb Nat.eqb_spec). }
    destruct (filter _ (channels cl)); [destruct H|simpl; lia].
Qed.

Lemma nick_change_notice_witness :
  let cl := getClient stTwo 0 in
  let notice := ":" ++ "alice" ++ "!" ++ JS.tpl (username cl) ++ "@" ++ hostname cl
                ++ " NICK :" ++ "alicia" in
  let st' := handleNick stTwo 0 ["NICK"; "alicia"] in
  nickname (getClient st' 0) = Some "alicia"
  /\ getSocket st' 0 = getSocket stTwo 0
  /\ (forall d, d <> 0 ->
                getSocket st' d
                = deliverAll (repeat notice (sharedWith stTwo (channels cl) d))
                    (getSocket stTwo d))
  /\ (forall n d, In n (channels cl) -> In d (membersOf stTwo n) ->
                  1 <= sharedWith stTwo (channels cl) d).
Proof.
  apply (nick_change_notice stTwo 0 ["NICK"; "alicia"] "alice").
  - apply reachable_run.
  - vm_compute; reflexivity.
  - vm_compute; reflexivity.
  - discriminate.
  - simpl; lia.
  - vm_compute; reflexivity.
Defined.

(** alice becomes alicia: bob is sent the notice under her old name. *)
Example nick_alicia :
  wire (getSocket (handleMessage stTwo 0 "NICK alicia") 1)
  = (wire (getSocket stTwo 1)
     ++ [(":alice!alice@10.0.0.1 NICK :alicia" ++ CRLF)%string])%list.
Proof. vm_compute; reflexivity. Qed.

(** C9 as stated fails when the old nickname is empty: alice is
    registered, holds the empty nickname and occupies [#test] with bob;
    her [NICK carol] is accepted, and nothing is written to bob. *)
Lemma nick_change_without_notice :
  let st' := handleNick stNameless 0 ["NICK"; "carol"] in
  registered (getClient stNameless 0) = true
  /\ channels (getClient stNameless 0) = ["#test"]
  /\ membersOf stNameless "#test" = [0; 1]
  /\ writable (getSocket stNameless 1) = true
  /\ nickname (getClient stNameless 0) = Some EmptyString
  /\ nickname (getClient st' 0) = Some "carol"
  /\ getSocket st' 1 = getSocket stNameless 1.
Proof. vm_compute; auto 10. Qed.

(** ** Disconnection (C1) *)

(** [removeClient] writes to no socket. *)
Lemma removeClient_silent st c d :
  wire (getSocket (removeClient st c) d) = wire (getSocket st d).
Proof.
  unfold removeClient; cbv zeta.
  match goal with |- context [negb ?b] => destruct b end; simpl negb; cbv iota;
    [reflexivity|].
  unfold getSocket at 1, setSocket; simpl.
  destruct (Nat.eq_dec c d) as [->|Hne].
  - destruct (Nat.lt_ge_cases d (length (sockets st))).
    + rewrite nth_update_same by auto. reflexivity.
    + rewrite update_beyond by auto. reflexivity.
  - rewrite nth_update_other by auto. reflexivity.
Qed.

(** What the cleanup on ['close'] and ['error'] does do, in a reachable
    state: the connection leaves the registry and every member set, and
    nothing else changes for any other connection. *)
Lemma removeClient_detaches st c :
  reachable st ->
  let st' := removeClient st c in
  ~ In c (srv_clients st')
  /\ (forall n, ~ In c (membersOf st' n))
  /\ (forall n, JS.get n (srv_channels st') <> None <-> membersOf st' n <> [])
  /\ (forall d, getClient st' d = getClient st d)
  /\ (forall d, d <> c -> getSocket st' d = getSocket st d)
  /\ (forall d, d <> c -> (In d (srv_clients st') <-> In d (srv_clients st)))
  /\ (forall d n, d <> c -> (In d (membersOf st' n) <-> In d (membersOf st n))).
Proof.
  intros Rch st'.
  apply Inv_reachable in Rch as I. pose proof I as [I1 I2 I3 I4 I5 I6].
  pose proof (Inv_removeClient st c I) as I'. fold st' in I'.
  pose proof (core_inj _ (mkServer _ _ _ []) (core_removeClient st c)) as (Hr & Hm & Hh).
  simpl in Hr, Hm, Hh. fold st' in Hr, Hm, Hh.
  split; [|split; [|split; [|split; [|split; [|split]]]]].
  - rewrite Hr, (In_delete Nat.eqb Nat.eqb_spec). tauto.
  - intros n H. apply In_membersOf, member_removeClient in H as (ch & G & Hc & Hne).
    apply Hne; auto. apply I3. exists ch; auto.
  - now apply directory_nonempty.
  - intros d. apply getClient_removeClient.
  - intros d Hd. unfold st', removeClient; cbv zeta.
    match goal with |- context [negb ?b] => destruct b end; simpl negb; cbv iota;
      [reflexivity|].
    unfold getSocket at 1, setSocket; simpl. now rewrite nth_update_other by auto.
  - intros d Hd. rewrite Hr, (In_delete Nat.eqb Nat.eqb_spec). tauto.
  - intros d n Hd. rewrite !In_membersOf. unfold st'. rewrite member_removeClient.
    unfold member. split; intros (ch & G & Hc); exists ch; tauto.
Qed.

(** C1 at a concrete state: alice and bob are in [#test] and alice's
    socket closes (or errors).  alice leaves the registry and the
    channel, which stays with bob alone, but bob's socket is left exactly
    as it was: no quit notice is written.  The QUIT command, in the same
    state, does write one. *)
Theorem close_sends_no_quit_notice :
  membersOf stTwo "#test" = [0; 1]
  /\ writable (getSocket stTwo 1) = true
  /\ srv_clients (step stTwo (Close 0)) = [1]
  /\ membersOf (step stTwo (Close 0)) "#test" = [1]
  /\ getSocket (step stTwo (Close 0)) 1 = getSocket stTwo 1
  /\ getSocket (step stTwo (Error 0)) 1 = getSocket stTwo 1
  /\ wire (getSocket (step stTwo (Line 0 "QUIT :bye")) 1)
     = (wire (getSocket stTwo 1)
        ++ [(":alice!alice@10.0.0.1 QUIT :bye" ++ CRLF)%string])%list.
Proof. vm_compute; auto 10. Qed.

(** * Further properties of the handlers *)

(** ** What no handler does *)

Ltac touches_same :=
  try (intros ?; exists []; now rewrite app_nil_r);
  try (intros ? ? ?; left; eauto).

Lemma Touches_refl b c st : Touches b c st st.
Proof. constructor; auto; touches_same. Qed.

Lemma Touches_trans b c st1 st2 st3 :
  Touches b c st1 st2 -> Touches b c st2 st3 -> Touches b c st1 st3.
Proof.
  intros [A1 A2 A3 A4 A5 A6 A7 A8 A9 A10] [B1 B2 B3 B4 B5 B6 B7 B8 B9 B10].
  constructor; try congruence; auto.
  - intros d Hd. rewrite B4, A4; auto.
  - intros Hb. rewrite B6, A6; auto.
  - intros d. destruct (A7 d) as (x & Hx), (B7 d) as (y & Hy).
    exists (x ++ y)%list. now rewrite Hy, Hx, app_assoc.
  - intros d W. rewrite B9, A9; auto.
    destruct (writable (getSocket st2 d)) eqn:E; auto.
    apply A8 in E; congruence.
  - intros n ch3 H. destruct (B10 n ch3 H) as [(ch2 & G2 & E2)|[S E]]; [|now right].
    destruct (A10 n ch2 G2) as [(ch1 & G1 & E1)|[S E]].
    + left; exists ch1; split; congruence.
    + right; split; congruence.
Qed.

Lemma Touches_weaken c st st' : Touches false c st st' -> Touches true c st st'.
Proof. intros [? ? ? ? ? ? ? ? ? ?]; constructor; auto; discriminate. Qed.

Lemma Touches_send b c st d m : Touches b c st (send st d m).
Proof.
  pose proof (core_inj _ _ (core_send st d m)) as (Hr & Hm & Hh).
  constructor.
  - now rewrite Hh.
  - apply length_sockets_send.
  - intros x; now rewrite Hr.
  - intros x _; apply getClient_send.
  - now rewrite getClient_send.
  - intros _; now rewrite getClient_send.
  - intros x. rewrite getSocket_send.
    destruct (Nat.eqb_spec x d) as [->|]; [|exists []; now rewrite app_nil_r].
    unfold deliver. destruct (writable (getSocket st d)); simpl; eauto.
    exists []; now rewrite app_nil_r.
  - intros x. rewrite getSocket_send.
    destruct (Nat.eqb_spec x d) as [->|]; auto. now rewrite writable_deliver.
  - intros x W. rewrite getSocket_send.
    destruct (Nat.eqb_spec x d) as [->|]; auto. unfold deliver; now rewrite W.
  - intros n ch'. rewrite Hm. left; eauto.
Qed.

Lemma Touches_sendReply b c st d code m : Touches b c st (sendReply st d code m).
Proof. apply Touches_send. Qed.

Lemma Touches_fold {A} b c (f : IRCServer -> A -> IRCServer) (l : list A) :
  (forall st a, Touches b c st (f st a)) ->
  forall st, Touches b c st (fold_left f l st).
Proof.
  intros H; induction l as [|a r IH]; intros st; simpl.
  - apply Touches_refl.
  - eapply Touches_trans; [apply H|apply IH].
Qed.

Lemma Touches_broadcastToChannel b c st ch m e :
  Touches b c st (broadcastToChannel st ch m e).
Proof.
  apply Touches_fold. intros s a.
  destruct (_ && _); auto using Touches_send, Touches_refl.
Qed.

Lemma Touches_broadcastToChannelsOf b c st names m e :
  Touches b c st (broadcastToChannelsOf st names m e).
Proof.
  apply Touches_fold. intros s a.
  destruct (JS.get a (srv_channels s)); auto using Touches_broadcastToChannel, Touches_refl.
Qed.

Lemma Touches_setClient b c st cl :
  hostname cl = hostname (getClient st c) ->
  (b = false -> nickname cl = nickname (getClient st c)) ->
  Touches b c st (setClient st c cl).
Proof.
  intros Hh Hn.
  assert (G : getClient (setClient st c cl) c = cl \/ getClient (setClient st c cl) c = getClient st c).
  { rewrite getClient_setClient. destruct (_ && _); auto. }
  constructor; simpl; auto; touches_same.
  - apply length_update.
  - intros d Hd. apply getClient_setClient_other; congruence.
  - destruct G as [->| ->]; auto.
  - intros Hb. destruct G as [->| ->]; auto.
Qed.

Lemma getSocket_setSocket st d s x :
  getSocket (setSocket st d s) x =
  if Nat.eqb x d && (d <? length (sockets st))%nat then s else getSocket st x.
Proof.
  unfold getSocket, setSocket; simpl.
  destruct (Nat.eqb_spec x d) as [->|Hne]; simpl.
  - destruct (Nat.ltb_spec d (length (sockets st))).
    + now apply nth_update_same.
    + now rewrite update_beyond.
  - apply nth_update_other; congruence.
Qed.

Lemma Touches_setSocket_destroy b c st d :
  Touches b c st (setSocket st d (destroy (getSocket st d))).
Proof.
  assert (G : forall x, wire (getSocket (setSocket st d (destroy (getSocket st d))) x)
                        = wire (getSocket st x)
                        /\ (writable (getSocket (setSocket st d (destroy (getSocket st d))) x)
                            = true -> writable (getSocket st x) = true)).
  { intros x. rewrite getSocket_setSocket.
    destruct (Nat.eqb_spec x d) as [->|Hne]; simpl; auto.
    destruct (_ <? _)%nat; simpl; auto. split; [reflexivity|discriminate]. }
  constructor; simpl; auto; touches_same.
  - apply length_update.
  - intros x. exists []. rewrite app_nil_r. apply G.
  - intros x. apply G.
  - intros x _. apply G.
Qed.

(** The directory after a change that keeps or drops entries and, where
    it rewrites one, keeps its name. *)
Lemma Touches_setChannels b c st m :
  (forall n ch', JS.get n m = Some ch' ->
                 (exists ch, JS.get n (srv_channels st) = Some ch /\ name ch' = name ch)
                 \/ (JS.startsWith n "#" = true /\ name ch' = n)) ->
  Touches b c st (setChannels st m).
Proof.
  intros H. constructor; simpl; auto; touches_same.
Qed.

Lemma Touches_setRegistry b c st x :
  Touches b c st (setRegistry st (JS.delete Nat.eqb x (srv_clients st))).
Proof.
  constructor; simpl; auto; touches_same.
  intros d Hd. apply (In_delete Nat.eqb Nat.eqb_spec) in Hd; tauto.
Qed.

Lemma dirStep_set_existing m n ch ch' :
  JS.get n m = Some ch -> name ch' = name ch -> dirStep m (JS.set n ch' m).
Proof.
  intros G E k c'. destruct (String.eqb_spec n k) as [<-|Hne].
  - rewrite get_set_same. intros [= <-]. left; eauto.
  - rewrite get_set_other by auto. left; eauto.
Qed.

Lemma dirStep_set_new m n ch' :
  JS.startsWith n "#" = true -> name ch' = n -> dirStep m (JS.set n ch' m).
Proof.
  intros S E k c'. destruct (String.eqb_spec n k) as [<-|Hne].
  - rewrite get_set_same. intros [= <-]. right; auto.
  - rewrite get_set_other by auto. left; eauto.
Qed.

Lemma dirStep_dropMember m n ch c :
  JS.get n m = Some ch -> dirStep m (dropMember m n ch c).
Proof.
  intros G k c'. rewrite get_dropMember. destruct (String.eqb_spec n k) as [<-|Hne].
  - intros D. apply detached_Some in D as (_ & _ & E & _). left; eauto.
  - left; eauto.
Qed.

Lemma dirStep_detachAll c names m : dirStep m (fold_left (detachStep c) names m).
Proof.
  intros k c'. rewrite get_detachAll. destruct (JS.has String.eqb k names); [|left; eauto].
  destruct (JS.get k m) as [ch|]; simpl; [|discriminate].
  intros D. apply detached_Some in D as (_ & _ & E & _). left; eauto.
Qed.

Lemma Touches_removeClient b c st x : Touches b c st (removeClient st x).
Proof.
  unfold removeClient; cbv zeta.
  eapply Touches_trans; [apply Touches_setChannels, (dirStep_detachAll x)|].
  eapply Touches_trans; [apply Touches_setRegistry|].
  destruct (negb _); [apply Touches_setSocket_destroy|apply Touches_refl].
Qed.

Lemma Touches_whoLines b c client target l : forall st,
  Touches b c st (fold_left (whoLine client target) l st).
Proof.
  apply Touches_fold. intros s a. unfold whoLine.
  destruct (JS.truthy _); auto using Touches_sendReply, Touches_refl.
Qed.

Ltac touch :=
  repeat (cbv zeta;
          match goal with
          | |- Touches _ _ ?s ?s => apply Touches_refl
          | |- Touches _ _ _ (sendReply _ _ _ _) =>
              eapply Touches_trans; [|apply Touches_sendReply]
          | |- Touches _ _ _ (notRegistered _ _) =>
              eapply Touches_trans; [|apply Touches_sendReply]
          | |- Touches _ _ _ (send _ _ _) =>
              eapply Touches_trans; [|apply Touches_send]
          | |- Touches _ _ _ (broadcastToChannel _ _ _ _) =>
              eapply Touches_trans; [|apply Touches_broadcastToChannel]
          | |- Touches _ _ _ (broadcastToChannelsOf _ _ _ _) =>
              eapply Touches_trans; [|apply Touches_broadcastToChannelsOf]
          | |- Touches _ _ _ (fold_left (whoLine _ _) _ _) =>
              eapply Touches_trans; [|apply Touches_whoLines]
          | |- Touches _ _ _ (fold_left _ (srv_channels _) _) =>
              eapply Touches_trans;
              [|apply Touches_fold; intros; apply Touches_sendReply]
          | |- Touches _ _ _ (removeClient _ _) =>
              eapply Touches_trans; [|apply Touches_removeClient]
          | |- Touches _ _ _ (setClient _ _ _) =>
              eapply Touches_trans;
              [|apply Touches_setClient; simpl; auto; intros; discriminate]
          | |- Touches _ _ _ (if ?b then _ else _) => destruct b eqn:?
          | |- Touches _ _ _ (match ?o with Some _ => _ | None => _ end) =>
              destruct o eqn:?
          | |- Touches _ _ _ (match ?s with EmptyString => _ | String _ _ => _ end) =>
              destruct s
          end).

Lemma Touches_checkRegistration b c st : Touches b c st (checkRegistration st c).
Proof. unfold checkRegistration. touch. Qed.

Lemma Touches_handleUser c st parts : Touches false c st (handleUser st c parts).
Proof.
  unfold handleUser. touch.
  eapply Touches_trans; [|apply Touches_checkRegistration]. touch.
Qed.

Lemma Touches_handleNick c st parts : Touches true c st (handleNick st c parts).
Proof.
  unfold handleNick. touch;
    (eapply Touches_trans; [|apply Touches_checkRegistration]); touch.
Qed.

Lemma Touches_handleJoin c st parts : Touches false c st (handleJoin st c parts).
Proof.
  unfold handleJoin.
  destruct (negb (registered (getClient st c))); [touch|].
  destruct (length parts <? 2)%nat; [touch|].
  destruct (negb (JS.startsWith _ "#")) eqn:S; [touch|].
  apply negb_false_iff in S. cbv zeta.
  set (n := nth 1 parts EmptyString) in *.
  destruct (JS.get n (srv_channels st)) as [ch|] eqn:G.
  - destruct (JS.has Nat.eqb c (clients ch)); [apply Touches_refl|].
    touch; (apply Touches_setChannels; eapply dirStep_set_existing; eauto).
  - simpl. touch;
      (eapply Touches_trans; [|apply Touches_setChannels, dirStep_set_new; auto];
       apply Touches_setChannels, dirStep_set_new; auto).
Qed.

Lemma Touches_handlePart c st parts : Touches false c st (handlePart st c parts).
Proof.
  unfold handlePart.
  destruct (negb (registered (getClient st c))); [touch|].
  destruct (length parts <? 2)%nat; [touch|].
  cbv zeta. destruct (memberOf st c _) as [ch|] eqn:M; [|touch].
  apply memberOf_Some in M as [G _].
  touch.
  eapply Touches_trans; [apply Touches_broadcastToChannel|].
  apply Touches_setChannels, dirStep_dropMember.
  now destruct (core_inj _ _ (core_broadcastToChannel st ch (partLine (getClient st c) parts) None))
    as (_ & -> & _).
Qed.

Lemma Touches_handleTopic c st parts : Touches false c st (handleTopic st c parts).
Proof.
  unfold handleTopic.
  destruct (negb (registered (getClient st c))); [touch|].
  destruct (length parts <? 2)%nat; [touch|].
  cbv zeta. destruct (memberOf st c _) as [ch|] eqn:M; [|touch].
  apply memberOf_Some in M as [G _].
  touch; try (apply Touches_setChannels; eapply dirStep_set_existing; eauto).
Qed.

Lemma Touches_handleMessage_other c st m :
  commandOf m <> "NICK" -> Touches false c st (handleMessage st c m).
Proof.
  intros H. unfold handleMessage; cbv zeta. fold (commandOf m).
  destruct (String.eqb_spec (commandOf m) "NICK"); [contradiction|].
  repeat match goal with
         | |- Touches _ _ _ (if ?b then _ else _) => destruct b
         end;
    auto using Touches_handleUser, Touches_handleJoin, Touches_handlePart,
      Touches_handleTopic, Touches_sendReply.
  - unfold handlePrivmsg, memberOf; touch.
  - unfold handlePing; touch.
  - unfold handleQuit; touch.
  - unfold handleWho, memberOf; touch.
  - unfold handleWhois; touch.
  - unfold handleList; touch.
  - unfold handleMode, memberOf; touch.
Qed.

Lemma Touches_handleMessage c st m : Touches true c st (handleMessage st c m).
Proof.
  destruct (String.eqb_spec (commandOf m) "NICK") as [E|Hne].
  - unfold handleMessage; cbv zeta. fold (commandOf m). rewrite E; simpl.
    apply Touches_handleNick.
  - now apply Touches_weaken, Touches_handleMessage_other.
Qed.

(** ** Invariants of every run *)

Lemma getSocket_accept st a d :
  d < length (sockets st) -> getSocket (accept st a) d = getSocket st d.
Proof. intros H; unfold getSocket, accept; simpl. now rewrite app_nth1. Qed.

(** One event, seen from a connection that already exists. *)
Lemma step_monotone st e d :
  length (sockets st) = length (heap st) -> d < length (heap st) ->
  length (sockets (step st e)) = length (heap (step st e))
  /\ d < length (heap (step st e))
  /\ hostname (getClient (step st e) d) = hostname (getClient st d)
  /\ (exists extra, wire (getSocket (step st e) d) = (wire (getSocket st d) ++ extra)%list)
  /\ (writable (getSocket (step st e) d) = true -> writable (getSocket st d) = true)
  /\ (writable (getSocket st d) = false ->
      wire (getSocket (step st e) d) = wire (getSocket st d)).
Proof.
  intros L Hd.
  assert (T : forall c st', Touches true c st st' ->
              length (sockets st') = length (heap st')
              /\ d < length (heap st')
              /\ hostname (getClient st' d) = hostname (getClient st d)
              /\ (exists extra, wire (getSocket st' d) = (wire (getSocket st d) ++ extra)%list)
              /\ (writable (getSocket st' d) = true -> writable (getSocket st d) = true)
              /\ (writable (getSocket st d) = false ->
                  wire (getSocket st' d) = wire (getSocket st d))).
  { intros c st' [A1 A2 A3 A4 A5 A6 A7 A8 A9 A10].
    repeat split; auto; try congruence.
    destruct (Nat.eq_dec d c) as [->|Hne]; [auto|now rewrite A4]. }
  destruct e as [a|c m|c|c|c]; simpl.
  - rewrite !length_app, L; simpl.
    rewrite getClient_accept, getSocket_accept by (auto; congruence).
    repeat split; auto; try lia. exists []; now rewrite app_nil_r.
  - destruct (allocated st c); [apply (T c), Touches_handleMessage|apply (T c), Touches_refl].
  - destruct (allocated st c); [apply (T c), Touches_removeClient|apply (T c), Touches_refl].
  - destruct (allocated st c); [apply (T c), Touches_removeClient|apply (T c), Touches_refl].
  - destruct (allocated st c); [|apply (T c), Touches_refl].
    simpl. rewrite length_update. rewrite getSocket_setSocket.
    change (getClient (setSocket st c _) d) with (getClient st d).
    repeat split; auto.
    + destruct (_ && _) eqn:E; [|exists []; now rewrite app_nil_r].
      apply andb_prop in E as [E _]; apply Nat.eqb_eq in E; subst.
      exists []; now rewrite app_nil_r.
    + destruct (_ && _); [discriminate|auto].
    + intros W. destruct (_ && _) eqn:E; auto.
      apply andb_prop in E as [E _]; apply Nat.eqb_eq in E; subst. reflexivity.
Qed.

Lemma run_monotone es : forall st d,
  length (sockets st) = length (heap st) -> d < length (heap st) ->
  length (sockets (run es st)) = length (heap (run es st))
  /\ d < length (heap (run es st))
  /\ hostname (getClient (run es st) d) = hostname (getClient st d)
  /\ (exists extra, wire (getSocket (run es st) d) = (wire (getSocket st d) ++ extra)%list)
  /\ (writable (getSocket (run es st) d) = true -> writable (getSocket st d) = true)
  /\ (writable (getSocket st d) = false ->
      wire (getSocket (run es st) d) = wire (getSocket st d)).
Proof.
  unfold run; induction es as [|e r IH]; intros st d L Hd; simpl.
  - repeat split; auto. exists []; now rewrite app_nil_r.
  - destruct (step_monotone st e d L Hd) as (L1 & H1 & Hh & (x & Hx) & Hw & Hc).
    destruct (IH (step st e) d L1 H1) as (L2 & H2 & Hh2 & (y & Hy) & Hw2 & Hc2).
    repeat split; auto; try congruence.
    + exists (x ++ y)%list. now rewrite Hy, Hx, app_assoc.
    + intros W. rewrite Hc2, Hc; auto.
      apply not_true_is_false; intros E; apply Hw in E; congruence.
Qed.

Lemma step_lengths st e :
  length (sockets st) = length (heap st) ->
  length (sockets (step st e)) = length (heap (step st e)).
Proof.
  intros L.
  assert (T : forall c st', Touches true c st st' ->
                            length (sockets st') = length (heap st'))
    by (intros c st' [A1 A2 _ _ _ _ _ _ _ _]; congruence).
  destruct e as [a|c m|c|c|c]; simpl.
  - rewrite !length_app, L; reflexivity.
  - destruct (allocated st c); [apply (T c), Touches_handleMessage|exact L].
  - destruct (allocated st c); [apply (T c), Touches_removeClient|exact L].
  - destruct (allocated st c); [apply (T c), Touches_removeClient|exact L].
  - destruct (allocated st c); [|exact L]. simpl. now rewrite length_update.
Qed.

Lemma reachable_lengths st : reachable st -> length (sockets st) = length (heap st).
Proof.
  intros (es & <-).
  assert (H : forall st0, length (sockets st0) = length (heap st0) ->
                          length (sockets (run es st0)) = length (heap (run es st0))).
  { unfold run; induction es as [|e r IH]; intros st0 L; simpl; auto using step_lengths. }
  apply H; reflexivity.
Qed.

(** What was sent to a connection is never taken back, and its hostname
    never changes: over any further events, the lines written to the
    socket of an existing connection grow at the end only, and the
    hostname recorded at connect time stays. *)
Theorem output_is_append_only st es d :
  reachable st -> d < length (heap st) ->
  hostname (getClient (run es st) d) = hostname (getClient st d)
  /\ exists extra, wire (getSocket (run es st) d) = (wire (getSocket st d) ++ extra)%list.
Proof.
  intros R Hd. apply reachable_lengths in R.
  destruct (run_monotone es st d R Hd) as (_ & _ & Hh & Hx & _). auto.
Qed.

Lemma output_is_append_only_witness :
  hostname (getClient (run [Line 1 "NICK rob"; Line 1 "PRIVMSG alice :hi"] stTwo) 0)
  = hostname (getClient stTwo 0)
  /\ exists extra,
      wire (getSocket (run [Line 1 "NICK rob"; Line 1 "PRIVMSG alice :hi"] stTwo) 0)
      = (wire (getSocket stTwo 0) ++ extra)%list.
Proof.
  apply (output_is_append_only stTwo [Line 1 "NICK rob"; Line 1 "PRIVMSG alice :hi"] 0).
  - apply reachable_run.
  - vm_compute; lia.
Defined.

(** A socket that is not writable (ended, closed or destroyed) stays so
    and is never written to again, whatever events follow. *)
Theorem closed_socket_is_never_written st es d :
  reachable st -> d < length (heap st) ->
  writable (getSocket st d) = false ->
  writable (getSocket (run es st) d) = false
  /\ wire (getSocket (run es st) d) = wire (getSocket st d).
Proof.
  intros R Hd W. apply reachable_lengths in R.
  destruct (run_monotone es st d R Hd) as (_ & _ & _ & _ & Hw & Hc).
  split; [|auto].
  apply not_true_is_false; intros E; apply Hw in E; congruence.
Qed.

Lemma closed_socket_is_never_written_witness :
  writable (getSocket (run [Line 1 "PRIVMSG #test :hi"; Line 0 "PING x"] stAliceGone) 0) = false
  /\ wire (getSocket (run [Line 1 "PRIVMSG #test :hi"; Line 0 "PING x"] stAliceGone) 0)
     = wire (getSocket stAliceGone 0).
Proof.
  apply (closed_socket_is_never_written stAliceGone
           [Line 1 "PRIVMSG #test :hi"; Line 0 "PING x"] 0).
  - apply reachable_run.
  - vm_compute; lia.
  - vm_compute; reflexivity.
Defined.

(** *** The channel directory *)

Lemma dirStep_keeps (m m' : list (string * IRCChannel)) :
  dirStep m m' ->
  (forall n ch, JS.get n m = Some ch -> JS.startsWith n "#" = true /\ name ch = n) ->
  forall n ch, JS.get n m' = Some ch -> JS.startsWith n "#" = true /\ name ch = n.
Proof.
  intros D H n ch' G. destruct (D n ch' G) as [(ch & G0 & E)|[S E]]; auto.
  destruct (H n ch G0) as [S E0]. split; congruence.
Qed.

Lemma step_directory st e :
  (forall n ch, JS.get n (srv_channels st) = Some ch ->
                JS.startsWith n "#" = true /\ name ch = n) ->
  forall n ch, JS.get n (srv_channels (step st e)) = Some ch ->
               JS.startsWith n "#" = true /\ name ch = n.
Proof.
  intros H.
  assert (T : forall c st', Touches true c st st' ->
              forall n ch, JS.get n (srv_channels st') = Some ch ->
                           JS.startsWith n "#" = true /\ name ch = n).
  { intros c st' [_ _ _ _ _ _ _ _ _ A10]. now apply (dirStep_keeps (srv_channels st)). }
  destruct e as [a|c m|c|c|c]; simpl; auto.
  - destruct (allocated st c); [apply (T c), Touches_handleMessage|exact H].
  - destruct (allocated st c); [apply (T c), Touches_removeClient|exact H].
  - destruct (allocated st c); [apply (T c), Touches_removeClient|exact H].
  - destruct (allocated st c); exact H.
Qed.

Lemma run_directory es : forall st,
  (forall n ch, JS.get n (srv_channels st) = Some ch ->
                JS.startsWith n "#" = true /\ name ch = n) ->
  forall n ch, JS.get n (srv_channels (run es st)) = Some ch ->
               JS.startsWith n "#" = true /\ name ch = n.
Proof.
  unfold run; induction es as [|e r IH]; intros st H; simpl; auto.
  apply IH. now apply step_directory.
Qed.

(** In every reachable state, every entry of the channel directory is
    keyed by a name that starts with [#], holds a channel record that
    carries that same name, and lists each member once; every member is
    a registered connection.  So a JOIN with a name that lacks the sigil
    never creates an entry, and an unregistered connection is in no
    channel. *)
Theorem directory_well_formed st :
  reachable st ->
  forall n ch, JS.get n (srv_channels st) = Some ch ->
    JS.startsWith n "#" = true
    /\ name ch = n
    /\ NoDup (clients ch)
    /\ forall c, In c (clients ch) -> registered (getClient st c) = true.
Proof.
  intros R n ch G.
  pose proof (Inv_reachable st R) as [_ I2 _ _ I5 _].
  assert (D : JS.startsWith n "#" = true /\ name ch = n).
  { destruct R as (es & <-). apply (run_directory es initial); auto.
    intros k c0; discriminate. }
  destruct D as [S E]. repeat split; eauto.
  intros c Hc. apply (I5 c n). exists ch; auto.
Qed.

Lemma directory_well_formed_witness :
  JS.startsWith "#test" "#" = true
  /\ name (channelFor stTwo "#test") = "#test"
  /\ NoDup (clients (channelFor stTwo "#test"))
  /\ forall c, In c (clients (channelFor stTwo "#test")) ->
               registered (getClient stTwo c) = true.
Proof.
  apply (directory_well_formed stTwo).
  - apply reachable_run.
  - vm_compute; reflexivity.
Defined.

(** *** Nicknames *)

Lemma handleNick_nickname st c parts :
  let st' := handleNick st c parts in
  nickname (getClient st' c) = nickname (getClient st c)
  \/ (nickname (getClient st' c) = Some (nth 1 parts EmptyString)
      /\ nickInUse st c (nth 1 parts EmptyString) = false).
Proof.
  intros st'. unfold st', handleNick.
  destruct (length parts <? 2)%nat; [left; apply f_equal, getClient_sendReply|].
  destruct (nickInUse st c _) eqn:U; [left; apply f_equal, getClient_sendReply|].
  cbv zeta.
  match goal with |- context [checkRegistration ?s c] => set (st2 := s) end.
  destruct (Touches_checkRegistration false c st2) as [_ _ _ _ _ Hn _ _ _ _].
  rewrite (Hn eq_refl).
  assert (E : getClient st2 c
              = getClient (setClient st c (withNickname (getClient st c)
                                             (Some (nth 1 parts EmptyString)))) c).
  { unfold st2.
    destruct (registered (getClient st c) && JS.truthy (nickname (getClient st c))); auto.
    apply getClient_core, core_broadcastToChannelsOf. }
  rewrite E, getClient_setClient.
  destruct (Nat.eqb c c && (c <? length (heap st))%nat); simpl;
    [right; split; reflexivity|left; reflexivity].
Qed.

Lemma handleMessage_nickname st c m :
  let st' := handleMessage st c m in
  nickname (getClient st' c) = nickname (getClient st c)
  \/ exists n, nickname (getClient st' c) = Some n /\ nickInUse st c n = false.
Proof.
  intros st'. destruct (String.eqb_spec (commandOf m) "NICK") as [E|Hne].
  - unfold st', handleMessage; cbv zeta. fold (commandOf m). rewrite E. simpl.
    destruct (handleNick_nickname st c (JS.split m)) as [H|H]; eauto.
  - left. destruct (Touches_handleMessage_other c st m Hne) as [_ _ _ _ _ Hn _ _ _ _].
    now apply Hn.
Qed.

Lemma uniqueNicks_Touches st st' c0 :
  Touches true c0 st st' ->
  (nickname (getClient st' c0) = nickname (getClient st c0)
   \/ exists n, nickname (getClient st' c0) = Some n /\ nickInUse st c0 n = false) ->
  uniqueNicks st -> uniqueNicks st'.
Proof.
  intros [_ _ Hr Ho _ _ _ _ _ _] Hn U c d n Hc Hd Nc Nd.
  apply Hr in Hc, Hd.
  destruct (Nat.eq_dec c d) as [|Hne]; auto. exfalso.
  assert (K : forall x y, x <> y -> y <> c0 -> In x (srv_clients st) -> In y (srv_clients st) ->
                          nickname (getClient st' x) = Some n ->
                          nickname (getClient st' y) = Some n -> False).
  { intros x y Hxy Hy Hx Hy' Nx Ny. rewrite (Ho y Hy) in Ny.
    destruct (Nat.eq_dec x c0) as [->|Hx0].
    - destruct Hn as [Hn|(k & Hk & Hu)].
      + rewrite Hn in Nx. apply Hxy. eapply U; eauto.
      + rewrite Hk in Nx; injection Nx as ->.
        rewrite (nickInUse_true st c0 y n) in Hu; auto; discriminate.
    - rewrite (Ho x Hx0) in Nx. apply Hxy. eapply U; eauto. }
  destruct (Nat.eq_dec d c0) as [->|Hd0].
  - apply (K c0 c); auto.
  - apply (K c d); auto.
Qed.

Lemma uniqueNicks_step st e : Inv st -> uniqueNicks st -> uniqueNicks (step st e).
Proof.
  intros I U. destruct e as [a|c m|c|c|c]; simpl.
  - destruct I as [_ _ _ _ _ I6].
    intros x y n Hx Hy Nx Ny. simpl in Hx, Hy.
    assert (N : nickname (getClient (accept st a) (length (heap st))) = None).
    { unfold getClient, accept; simpl. now rewrite app_nth2, Nat.sub_diag by lia. }
    apply in_app_iff in Hx as [Hx|[<-|[]]]; [|congruence].
    apply in_app_iff in Hy as [Hy|[<-|[]]]; [|congruence].
    rewrite getClient_accept in Nx, Ny by auto. eapply U; eauto.
  - destruct (allocated st c); auto.
    apply (uniqueNicks_Touches st _ c); auto using Touches_handleMessage.
    apply handleMessage_nickname.
  - destruct (allocated st c); auto.
    apply (uniqueNicks_Touches st _ c); auto using Touches_removeClient.
    left. now rewrite getClient_removeClient.
  - destruct (allocated st c); auto.
    apply (uniqueNicks_Touches st _ c); auto using Touches_removeClient.
    left. now rewrite getClient_removeClient.
  - destruct (allocated st c); auto.
Qed.

Lemma uniqueNicks_run es : forall st, Inv st -> uniqueNicks st -> uniqueNicks (run es st).
Proof.
  unfold run; induction es as [|e r IH]; intros st I U; simpl; auto.
  apply IH; auto using Inv_step, uniqueNicks_step.
Qed.

Lemma uniqueNicks_reachable st : reachable st -> uniqueNicks st.
Proof.
  intros (es & <-). apply uniqueNicks_run; [apply Inv_initial|].
  intros c d n [].
Qed.

(** In every reachable state no two clients of the registry hold the same
    nickname, and [findClientByNickname] answers with the one client that
    holds a nickname, or with none when nobody does. *)
Theorem nicknames_are_unique st :
  reachable st ->
  uniqueNicks st
  /\ forall nick,
      match findClientByNickname st nick with
      | Some t =>
          In t (srv_clients st) /\ nickname (getClient st t) = Some nick
          /\ forall d, In d (srv_clients st) -> nickname (getClient st d) = Some nick -> d = t
      | None => forall d, In d (srv_clients st) -> nickname (getClient st d) <> Some nick
      end.
Proof.
  intros R. pose proof (uniqueNicks_reachable st R) as U. split; [exact U|].
  intros nick. unfold findClientByNickname.
  destruct (find _ (srv_clients st)) as [t|] eqn:F.
  - apply find_some in F as [Ht E].
    assert (N : nickname (getClient st t) = Some nick).
    { destruct (nickname (getClient st t)) as [x|]; simpl in E; [|discriminate].
      apply String.eqb_eq in E; now subst. }
    repeat split; auto. intros d Hd Nd. eapply U; eauto.
  - intros d Hd Nd. pose proof (find_none _ _ F d Hd) as E. simpl in E.
    rewrite Nd in E; simpl in E. now rewrite String.eqb_refl in E.
Qed.

Lemma nicknames_are_unique_witness :
  uniqueNicks stTwo
  /\ forall nick,
      match findClientByNickname stTwo nick with
      | Some t =>
          In t (srv_clients stTwo) /\ nickname (getClient stTwo t) = Some nick
          /\ forall d, In d (srv_clients stTwo) ->
                       nickname (getClient stTwo d) = Some nick -> d = t
      | None => forall d, In d (srv_clients stTwo) -> nickname (getClient stTwo d) <> Some nick
      end.
Proof. apply (nicknames_are_unique stTwo). apply reachable_run. Defined.

(** ** Parsing a line *)

Lemma split_nonempty s : JS.split s <> [].
Proof.
  destruct s as [|c r]; simpl; [discriminate|].
  destruct (Ascii.eqb c JS.space); [discriminate|].
  destruct (JS.split r); discriminate.
Qed.

Lemma split_app_space a b :
  JS.split (a ++ String JS.space b) = (JS.split a ++ JS.split b)%list.
Proof.
  induction a as [|c a IH]; simpl.
  - reflexivity.
  - rewrite IH. destruct (Ascii.eqb c JS.space); [reflexivity|].
    pose proof (split_nonempty a) as N.
    destruct (JS.split a) as [|h t]; [congruence|reflexivity].
Qed.

Lemma split_token s : noSpace s = true -> JS.split s = [s].
Proof.
  induction s as [|c r IH]; simpl; [reflexivity|].
  intros H. apply andb_prop in H as [Hc Hr].
  apply negb_true_iff in Hc. rewrite Hc, (IH Hr). reflexivity.
Qed.

Lemma join_split s : JS.join (JS.split s) = s.
Proof.
  induction s as [|c r IH]; simpl; [reflexivity|].
  pose proof (split_nonempty r) as N.
  destruct (Ascii.eqb_spec c JS.space) as [->|Hne].
  - destruct (JS.split r) as [|h t] eqn:E; [congruence|].
    change (JS.join (EmptyString :: h :: t)) with (String JS.space (JS.join (h :: t))).
    now rewrite IH.
  - destruct (JS.split r) as [|h [|h2 t]] eqn:E; [congruence| |].
    + simpl in *. now rewrite IH.
    + change (JS.join (String c h :: h2 :: t))
        with (String c (JS.join (h :: h2 :: t))).
      now rewrite IH.
Qed.

(** A line [verb target :text], where verb and target are single tokens,
    splits into the verb, the target and the pieces of [:text], whose
    join is [:text] again: the trailing text is recovered whatever
    spaces it contains. *)
Lemma split_trailing verb target text :
  noSpace verb = true -> noSpace target = true ->
  let parts := JS.split (verb ++ " " ++ target ++ " " ++ text) in
  hd EmptyString parts = verb
  /\ nth 1 parts EmptyString = target
  /\ JS.join (JS.slice 2 parts) = text
  /\ 3 <= length parts.
Proof.
  intros Hv Ht parts. unfold parts.
  change (verb ++ " " ++ target ++ " " ++ text)
    with (verb ++ String JS.space (target ++ String JS.space text)).
  rewrite !split_app_space, (split_token verb Hv), (split_token target Ht). simpl.
  repeat split; auto using join_split.
  pose proof (split_nonempty text). destruct (JS.split text); simpl; [congruence|lia].
Qed.

(** The verb is matched without regard to case, and no handler looks at
    it again: two lines with the same upper-cased verb and the same
    arguments are handled identically. *)
Theorem verb_case_is_irrelevant st c m1 m2 :
  commandOf m1 = commandOf m2 ->
  tl (JS.split m1) = tl (JS.split m2) ->
  handleMessage st c m1 = handleMessage st c m2.
Proof.
  unfold handleMessage, commandOf. intros Hc Ht.
  pose proof (split_nonempty m1) as N1. pose proof (split_nonempty m2) as N2.
  destruct (JS.split m1) as [|h1 t1]; [congruence|].
  destruct (JS.split m2) as [|h2 t2]; [congruence|].
  simpl in Hc, Ht. subst t2. cbv zeta. simpl hd. rewrite Hc.
  repeat match goal with
         | |- (if ?b then _ else _) = _ => destruct b; [reflexivity|]
         end.
  reflexivity.
Qed.

Lemma verb_case_is_irrelevant_witness :
  handleMessage stTwo 1 "privmsg #test :hi there" = handleMessage stTwo 1 "PrivMsg #test :hi there".
Proof.
  apply (verb_case_is_irrelevant stTwo 1 "privmsg #test :hi there" "PrivMsg #test :hi there");
    vm_compute; reflexivity.
Defined.

Lemma handleMessage_dispatch st c m :
  handleMessage st c m =
  let parts := JS.split m in
  let command := commandOf m in
  if command =? "USER" then handleUser st c parts
  else if command =? "NICK" then handleNick st c parts
  else if command =? "JOIN" then handleJoin st c parts
  else if command =? "PART" then handlePart st c parts
  else if command =? "PRIVMSG" then handlePrivmsg st c parts
  else if command =? "PING" then handlePing st c parts
  else if command =? "QUIT" then handleQuit st c parts
  else if command =? "WHO" then handleWho st c parts
  else if command =? "WHOIS" then handleWhois st c parts
  else if command =? "LIST" then handleList st c parts
  else if command =? "TOPIC" then handleTopic st c parts
  else if command =? "MODE" then handleMode st c parts
  else sendReply st c "421" (command ++ " :Unknown command").
Proof. reflexivity. Qed.

Lemma commandOf_verb verb rest :
  noSpace verb = true -> commandOf (verb ++ String JS.space rest) = JS.toUpperCase verb.
Proof.
  intros H. unfold commandOf. now rewrite split_app_space, (split_token verb H).
Qed.





Lemma append_empty_r (s : string) : s ++ EmptyString = s.
Proof. induction s as [|a r IH]; simpl; [reflexivity|now rewrite IH]. Qed.

Lemma startsWith_cons a r : JS.startsWith (String a r) (String a EmptyString) = true.
Proof.
  unfold JS.startsWith; simpl. destruct (ascii_dec a a); [|congruence].
  destruct r; reflexivity.
Qed.

(** The reason of a PART is relayed the same with and without the colon
    that introduces it, and a PART without reason relays none. *)
Theorem part_reason_colon_is_optional cl verb n reason :
  noSpace verb = true -> noSpace n = true ->
  reason <> EmptyString -> JS.startsWith reason ":" = false ->
  partLine cl (JS.split (verb ++ " " ++ n ++ " " ++ reason))
  = prefixOf cl ++ " PART " ++ n ++ " :" ++ reason
  /\ partLine cl (JS.split (verb ++ " " ++ n ++ " :" ++ reason))
     = prefixOf cl ++ " PART " ++ n ++ " :" ++ reason
  /\ partLine cl (JS.split (verb ++ " " ++ n)) = prefixOf cl ++ " PART " ++ n.
Proof.
  intros Hv Hn Hr Hs.
  pose proof (split_trailing verb n reason Hv Hn) as (_ & A1 & A2 & _).
  pose proof (split_trailing verb n (":" ++ reason) Hv Hn) as (_ & B1 & B2 & _).
  split; [|split].
  - unfold partLine. rewrite A1, A2. cbv zeta.
    destruct reason as [|a r]; [congruence|]. now rewrite Hs.
  - change (verb ++ " " ++ n ++ " :" ++ reason)
      with (verb ++ " " ++ n ++ " " ++ ":" ++ reason).
    unfold partLine. rewrite B1, B2. cbv zeta.
    change (":" ++ reason) with (String ":" reason).
    rewrite startsWith_cons. reflexivity.
  - change (verb ++ " " ++ n) with (verb ++ String JS.space n).
    unfold partLine. rewrite split_app_space, (split_token verb Hv), (split_token n Hn).
    simpl. now rewrite append_empty_r.
Qed.

Lemma part_reason_colon_is_optional_witness :
  partLine (getClient stTwo 0) (JS.split ("PART" ++ " " ++ "#test" ++ " " ++ "bye now"))
  = prefixOf (getClient stTwo 0) ++ " PART " ++ "#test" ++ " :" ++ "bye now"
  /\ partLine (getClient stTwo 0) (JS.split ("PART" ++ " " ++ "#test" ++ " :" ++ "bye now"))
     = prefixOf (getClient stTwo 0) ++ " PART " ++ "#test" ++ " :" ++ "bye now"
  /\ partLine (getClient stTwo 0) (JS.split ("PART" ++ " " ++ "#test"))
     = prefixOf (getClient stTwo 0) ++ " PART " ++ "#test".
Proof.
  apply (part_reason_colon_is_optional (getClient stTwo 0) "PART" "#test" "bye now");
    try reflexivity. discriminate.
Defined.

(** ** Data chunks *)

Lemma trimEnd_cons c r :
  isWhite c = false -> trimEnd (String c r) = String c (trimEnd r).
Proof. intros H; simpl. destruct (trimEnd r); [now rewrite H|reflexivity]. Qed.

Lemma trimEnd_idem s : trimEnd (trimEnd s) = trimEnd s.
Proof.
  induction s as [|c r IH]; simpl; [reflexivity|].
  destruct (trimEnd r) as [|a x] eqn:E.
  - destruct (isWhite c) eqn:W; simpl; [reflexivity|now rewrite W].
  - change (trimEnd (String c (String a x))) with
      (match trimEnd (String a x) with
       | EmptyString => if isWhite c then EmptyString else String c EmptyString
       | r' => String c r'
       end).
    now rewrite IH.
Qed.

Lemma trimStart_head s :
  trimStart s = EmptyString
  \/ exists c r, trimStart s = String c r /\ isWhite c = false.
Proof.
  induction s as [|c r IH]; simpl; auto.
  destruct (isWhite c) eqn:W; eauto.
Qed.

Lemma trimStart_trim s : trimStart (trim s) = trim s.
Proof.
  unfold trim. destruct (trimStart_head s) as [->|(c & r & -> & W)]; [reflexivity|].
  rewrite (trimEnd_cons c r W). simpl. now rewrite W.
Qed.

Lemma trim_idem s : trim (trim s) = trim s.
Proof. unfold trim at 1. rewrite trimStart_trim. unfold trim. apply trimEnd_idem. Qed.

Lemma noCRLF_tail c r : noCRLF (String c r) = true -> noCRLF r = true.
Proof.
  simpl. destruct r as [|c2 r2]; [reflexivity|].
  intros H; apply andb_prop in H as [_ H]; exact H.
Qed.

Lemma noCRLF_trimStart s : noCRLF s = true -> noCRLF (trimStart s) = true.
Proof.
  induction s as [|c r IH]; intros H; simpl; [reflexivity|].
  destruct (isWhite c); [apply IH; eapply noCRLF_tail; eauto|exact H].
Qed.

Lemma trimEnd_head s a x : trimEnd s = String a x -> exists y, s = String a y.
Proof.
  destruct s as [|c r]; simpl; [discriminate|].
  destruct (trimEnd r); [destruct (isWhite c)|]; intros [= <- <-] || intros [=]; eauto.
Qed.

Lemma noCRLF_trimEnd s : noCRLF s = true -> noCRLF (trimEnd s) = true.
Proof.
  induction s as [|c r IH]; intros H; [reflexivity|].
  pose proof (IH (noCRLF_tail c r H)) as Hr.
  simpl trimEnd. destruct (trimEnd r) as [|a x] eqn:E.
  - destruct (isWhite c); reflexivity.
  - destruct (trimEnd_head r a x E) as (y & ->).
    simpl in H. apply andb_prop in H as [H _].
    change (noCRLF (String c (String a x)))
      with (negb ((nat_of_ascii c =? 13) && (nat_of_ascii a =? 10))%nat
            && noCRLF (String a x)).
    now rewrite H, Hr.
Qed.

Lemma splitCRLF_whole s : noCRLF s = true -> splitCRLF s = [s].
Proof.
  induction s as [|c r IH]; intros H; [reflexivity|].
  pose proof (IH (noCRLF_tail c r H)) as Hr.
  destruct r as [|c2 r2]; [reflexivity|].
  simpl in H. apply andb_prop in H as [H _]. apply negb_true_iff in H.
  change (splitCRLF (String c (String c2 r2)))
    with (if ((nat_of_ascii c =? 13) && (nat_of_ascii c2 =? 10))%nat
          then EmptyString :: splitCRLF r2
          else consHead c (splitCRLF (String c2 r2))).
  now rewrite H, Hr.
Qed.






(** The chunk above holds two lines. *)
Example lines_of_chunk :
  linesOf ("PRIVMSG #test :hi" ++ CRLF ++ "  " ++ CRLF ++ "QUIT :bye" ++ CRLF)
  = ["PRIVMSG #test :hi"; "QUIT :bye"].
Proof. vm_compute; reflexivity. Qed.

(** Lines are separated by CR LF only: a chunk in which no CR is followed
    by LF is handled as one line at most, its trimmed content, bare line
    feeds inside it included; a blank chunk is ignored. *)
Theorem chunk_without_crlf_is_one_line st c data :
  noCRLF data = true ->
  onData st c data =
  match trim data with
  | EmptyString => st
  | String a m => handleMessage st c (String a m)
  end.
Proof.
  intros H. unfold onData.
  assert (N : noCRLF (trim data) = true)
    by (unfold trim; now apply noCRLF_trimEnd, noCRLF_trimStart).
  rewrite (splitCRLF_whole _ N). simpl. now rewrite trim_idem.
Qed.

Lemma chunk_without_crlf_is_one_line_witness :
  let data := ("NICK carol" ++ String (ascii_of_nat 10) "USER carol 0 * :Carol")%string in
  onData stThree 2 data =
  match trim data with
  | EmptyString => stThree
  | String a m => handleMessage stThree 2 (String a m)
  end.
Proof.
  apply (chunk_without_crlf_is_one_line stThree 2). vm_compute; reflexivity.
Defined.

(** ** Joining a channel *)

Lemma clients_channelFor st n : clients (channelFor st n) = membersOf st n.
Proof. unfold channelFor, membersOf. now destruct (JS.get n (srv_channels st)). Qed.

Lemma handleJoin_success st c parts :
  registered (getClient st c) = true -> 2 <= length parts ->
  JS.startsWith (nth 1 parts EmptyString) "#" = true ->
  ~ In c (membersOf st (nth 1 parts EmptyString)) ->
  let n := nth 1 parts EmptyString in
  let ch' := withClients (channelFor st n) (membersOf st n ++ [c])%list in
  let st2 := setClient (setChannels st (JS.set n ch' (srv_channels st))) c
               (withChannels (getClient st c) (JS.add String.eqb n (channels (getClient st c)))) in
  handleJoin st c parts = joinOutput st2 c n ch'.
Proof.
  intros R L S Hn n ch' st2.
  assert (Hh : JS.has Nat.eqb c (membersOf st n) = false)
    by (now apply (has_false Nat.eqb Nat.eqb_spec)).
  assert (Ha : JS.add Nat.eqb c (membersOf st n) = (membersOf st n ++ [c])%list)
    by (unfold JS.add; now rewrite Hh).
  unfold handleJoin. rewrite R; simpl negb; cbv iota.
  destruct (Nat.ltb_spec (length parts) 2); [lia|].
  rewrite S; simpl negb; cbv iota zeta. fold n.
  unfold ch', st2, channelFor, membersOf in *.
  destruct (JS.get n (srv_channels st)) as [ch|] eqn:G.
  - rewrite Hh, Ha. reflexivity.
  - simpl JS.has. cbv iota. simpl srv_channels. rewrite set_set. reflexivity.
Qed.

Lemma handleJoin_member st c parts ch :
  registered (getClient st c) = true -> 2 <= length parts ->
  JS.startsWith (nth 1 parts EmptyString) "#" = true ->
  memberOf st c (nth 1 parts EmptyString) = Some ch ->
  handleJoin st c parts = st.
Proof.
  intros R L S M. apply memberOf_Some in M as [G H].
  apply (has_In Nat.eqb Nat.eqb_spec) in H.
  unfold handleJoin. rewrite R; simpl negb; cbv iota.
  destruct (Nat.ltb_spec (length parts) 2); [lia|].
  rewrite S; simpl negb; cbv iota zeta. now rewrite G, H.
Qed.

Lemma core_joinOutput st2 c n ch' : core (joinOutput st2 c n ch') = core st2.
Proof.
  unfold joinOutput; cbv zeta.
  rewrite core_broadcastToChannel, !core_sendReply.
  destruct (JS.truthy (topic ch')); now rewrite ?core_sendReply, core_send.
Qed.






(** Repeating a JOIN changes nothing: for a registered client and a
    [#]-named channel, the second of two identical JOINs leaves the
    state as the first one made it and writes to no socket. *)
Theorem join_is_idempotent st c parts :
  registered (getClient st c) = true -> 2 <= length parts ->
  JS.startsWith (nth 1 parts EmptyString) "#" = true ->
  handleJoin (handleJoin st c parts) c parts = handleJoin st c parts.
Proof.
  intros R L S. set (n := nth 1 parts EmptyString) in *.
  destruct (memberOf st c n) as [ch|] eqn:M.
  - rewrite (handleJoin_member st c parts ch R L S M).
    apply (handleJoin_member st c parts ch R L S M).
  - assert (Hn : ~ In c (membersOf st n)).
    { intros H. apply memberOf_member in H as (ch & M' & _). congruence. }
    pose proof (handleJoin_success st c parts R L S Hn) as E. cbv zeta in E. fold n in E.
    set (ch' := withClients (channelFor st n) (membersOf st n ++ [c])%list) in *.
    set (st2 := setClient _ c _) in E.
    pose proof (core_inj _ _ (core_joinOutput st2 c n ch')) as (_ & Cm & Ch).
    rewrite <- E in Cm, Ch.
    pose proof (registered_allocated _ _ R) as Ha.
    apply (handleJoin_member _ c parts ch'); auto.
    + unfold getClient. rewrite Ch. fold (getClient st2 c).
      unfold st2. rewrite getClient_setClient_same by exact Ha. exact R.
    + apply memberOf_Some. rewrite Cm. simpl. split; [apply get_set_same|].
      apply in_app_iff; simpl; auto.
Qed.

Lemma join_is_idempotent_witness :
  handleJoin (handleJoin stTwo 1 ["JOIN"; "#lobby"]) 1 ["JOIN"; "#lobby"]
  = handleJoin stTwo 1 ["JOIN"; "#lobby"].
Proof.
  apply (join_is_idempotent stTwo 1 ["JOIN"; "#lobby"]).
  - vm_compute; reflexivity.
  - simpl; lia.
  - vm_compute; reflexivity.
Defined.

(** ** Direct messages *)



(** ** Quitting *)

Lemma removeClient_detaches_inv st c :
  Inv st ->
  let st' := removeClient st c in
  ~ In c (srv_clients st')
  /\ (forall n, ~ In c (membersOf st' n))
  /\ (forall d, getClient st' d = getClient st d)
  /\ (forall d, d <> c -> getSocket st' d = getSocket st d)
  /\ (forall d, d <> c -> (In d (srv_clients st') <-> In d (srv_clients st)))
  /\ (forall d n, d <> c -> (In d (membersOf st' n) <-> In d (membersOf st n))).
Proof.
  intros I st'. pose proof I as [I1 I2 I3 I4 I5 I6].
  pose proof (core_inj _ (mkServer _ _ _ []) (core_removeClient st c)) as (Hr & Hm & Hh).
  simpl in Hr, Hm, Hh. fold st' in Hr, Hm, Hh.
  split; [|split; [|split; [|split; [|split]]]].
  - rewrite Hr, (In_delete Nat.eqb Nat.eqb_spec). tauto.
  - intros n H. apply In_membersOf, member_removeClient in H as (ch & G & Hc & Hne).
    apply Hne; auto. apply I3. exists ch; auto.
  - intros d. apply getClient_removeClient.
  - intros d Hd. unfold st', removeClient; cbv zeta.
    match goal with |- context [negb ?b] => destruct b end; simpl negb; cbv iota;
      [reflexivity|].
    rewrite getSocket_setSocket. destruct (Nat.eqb_spec d c); [contradiction|reflexivity].
  - intros d Hd. rewrite Hr, (In_delete Nat.eqb Nat.eqb_spec). tauto.
  - intros d n Hd. rewrite !In_membersOf. unfold st'. rewrite member_removeClient.
    unfold member. split; intros (ch & G & Hc); exists ch; tauto.
Qed.

Lemma removeClient_socket st c :
  destroyed (getSocket st c) = false ->
  getSocket (removeClient st c) c = destroy (getSocket st c).
Proof.
  intros D. unfold removeClient; cbv zeta.
  change (getSocket (setRegistry _ _) c) with (getSocket st c).
  rewrite D; simpl negb; cbv iota.
  rewrite getSocket_setSocket, Nat.eqb_refl; simpl.
  destruct (Nat.ltb_spec c (length (sockets st))) as [H|H]; [reflexivity|].
  unfold getSocket in D. rewrite nth_overflow in D by exact H. discriminate.
Qed.

(** QUIT.  In a reachable state: the quit notice, with the reason given or
    [Client Quit], is written to every other connection once for each
    channel of the quitter's joined-channel set that has it as a member;
    then the quitter is out of the registry and of every member set,
    nothing changes for the membership of anybody else, no client record
    is rewritten, and the quitter's socket, if it was not destroyed yet,
    is destroyed without having been written to. *)
Theorem quit_effect st c parts :
  reachable st ->
  let cl := getClient st c in
  let notice := prefixOf cl ++ " QUIT :" ++ quitReason parts in
  let st' := handleQuit st c parts in
  ~ In c (srv_clients st')
  /\ (forall n, ~ In c (membersOf st' n))
  /\ (forall d, getClient st' d = getClient st d)
  /\ (forall d, d <> c -> (In d (srv_clients st') <-> In d (srv_clients st)))
  /\ (forall d n, d <> c -> (In d (membersOf st' n) <-> In d (membersOf st n)))
  /\ (forall d, d <> c ->
                getSocket st' d
                = deliverAll (repeat notice (sharedWith st (channels cl) d)) (getSocket st d))
  /\ (destroyed (getSocket st c) = false -> getSocket st' c = destroy (getSocket st c)).
Proof.
  intros Rch cl notice st'.
  pose proof (Inv_reachable st Rch) as I. pose proof I as [_ I2 _ _ _ _].
  set (st1 := broadcastToChannelsOf st (channels cl) notice c).
  assert (E : st' = removeClient st1 c) by reflexivity.
  pose proof (core_broadcastToChannelsOf st (channels cl) notice c) as C1. fold st1 in C1.
  pose proof (core_inj _ _ C1) as (Hr & Hm & Hh).
  assert (I1 : Inv st1) by (apply (Inv_core st); auto).
  destruct (removeClient_detaches_inv st1 c I1) as (A1 & A2 & A3 & A4 & A5 & A6).
  rewrite <- E in A1, A2, A3, A4, A5, A6.
  assert (S1 : getSocket st1 c = getSocket st c)
    by apply getSocket_broadcastToChannelsOf_self.
  split; [exact A1|]. split; [exact A2|].
  split; [intros d; rewrite A3; now apply getClient_core|].
  split; [intros d Hd; rewrite (A5 d Hd), Hr; tauto|].
  split; [intros d n Hd; rewrite (A6 d n Hd), (membersOf_channels st st1 n Hm); tauto|].
  split.
  - intros d Hd. rewrite (A4 d Hd). unfold st1.
    now rewrite getSocket_broadcastToChannelsOf by auto.
  - intros D. rewrite E, removeClient_socket by (now rewrite S1). now rewrite S1.
Qed.

Lemma quit_effect_witness :
  let cl := getClient stTwo 0 in
  let notice := prefixOf cl ++ " QUIT :" ++ quitReason ["QUIT"] in
  let st' := handleQuit stTwo 0 ["QUIT"] in
  ~ In 0 (srv_clients st')
  /\ (forall n, ~ In 0 (membersOf st' n))
  /\ (forall d, getClient st' d = getClient stTwo d)
  /\ (forall d, d <> 0 -> (In d (srv_clients st') <-> In d (srv_clients stTwo)))
  /\ (forall d n, d <> 0 -> (In d (membersOf st' n) <-> In d (membersOf stTwo n)))
  /\ (forall d, d <> 0 ->
                getSocket st' d
                = deliverAll (repeat notice (sharedWith stTwo (channels cl) d))
                    (getSocket stTwo d))
  /\ (destroyed (getSocket stTwo 0) = false -> getSocket st' 0 = destroy (getSocket stTwo 0)).
Proof. apply (quit_effect stTwo 0 ["QUIT"]). apply reachable_run. Defined.

(** alice quits without a reason: bob reads the default one. *)
Example quit_default_reason :
  wire (getSocket (handleMessage stTwo 0 "QUIT") 1)
  = (wire (getSocket stTwo 1) ++ [(":alice!alice@10.0.0.1 QUIT :Client Quit" ++ CRLF)%string])%list.
Proof. vm_compute; reflexivity. Qed.

Lemma set_get_id {V} k (v : V) m : JS.get k m = Some v -> JS.set k v m = m.
Proof.
  induction m as [|[k0 v0] r IH]; simpl; [discriminate|].
  destruct (String.eqb_spec k0 k) as [->|Hne].
  - now intros [= ->].
  - intros H. now rewrite IH.
Qed.

Lemma detachStep_absent c m n :
  (forall ch, JS.get n m = Some ch -> ~ In c (clients ch) /\ clients ch <> []) ->
  detachStep c m n = m.
Proof.
  intros H. unfold detachStep. destruct (JS.get n m) as [ch|] eqn:G; [|reflexivity].
  destruct (H ch eq_refl) as [Hc Hn].
  unfold dropMember; cbv zeta. simpl clients.
  rewrite (delete_absent Nat.eqb Nat.eqb_spec) by exact Hc.
  destruct (clients ch) as [|a l] eqn:E; [congruence|]. simpl length. simpl Nat.eqb. cbv iota.
  apply set_get_id. rewrite G. f_equal. destruct ch; simpl in *; now rewrite E.
Qed.

Lemma removeClient_again st c :
  Inv st -> removeClient (removeClient st c) c = removeClient st c.
Proof.
  intros I. set (st1 := removeClient st c).
  pose proof (Inv_removeClient st c I) as I1. fold st1 in I1.
  destruct (removeClient_detaches_inv st c I) as (A1 & A2 & _). fold st1 in A1, A2.
  assert (D : destroyed (getSocket st1 c) = true).
  { destruct (destroyed (getSocket st c)) eqn:E.
    - unfold st1, removeClient; cbv zeta.
      change (getSocket (setRegistry _ _) c) with (getSocket st c).
      rewrite E. exact E.
    - unfold st1. now rewrite removeClient_socket by exact E. }
  assert (F : fold_left (detachStep c) (channels (getClient st1 c)) (srv_channels st1)
              = srv_channels st1).
  { generalize (channels (getClient st1 c)) as names.
    induction names as [|n r IH]; simpl; [reflexivity|].
    rewrite detachStep_absent; [exact IH|].
    intros ch G. split.
    - intros Hc. apply (A2 n). unfold membersOf. now rewrite G.
    - destruct I1 as [J1 _ _ _ _ _]. eauto. }
  unfold removeClient at 1; cbv zeta.
  change (getSocket (setRegistry _ _) c) with (getSocket st1 c).
  rewrite D; simpl negb; cbv iota.
  rewrite F, (delete_absent Nat.eqb Nat.eqb_spec) by exact A1.
  destruct st1; reflexivity.
Qed.

Lemma quit_detaches st c parts :
  Inv st ->
  let st' := handleQuit st c parts in
  ~ In c (srv_clients st')
  /\ (forall n, ~ In c (membersOf st' n))
  /\ (forall d, getClient st' d = getClient st d).
Proof.
  intros I st'. unfold st', handleQuit; cbv zeta.
  match goal with |- context [removeClient ?s c] => set (st1 := s) end.
  assert (C1 : core st1 = core st) by apply core_broadcastToChannelsOf.
  assert (I1 : Inv st1) by (apply (Inv_core st); auto).
  destruct (removeClient_detaches_inv st1 c I1) as (A1 & A2 & A3 & _).
  repeat split; auto. intros d. rewrite A3. now apply getClient_core.
Qed.

(** Cleaning up twice is harmless: in a reachable state, a second
    [removeClient] for the same connection changes nothing, so the
    ['close'] that follows a QUIT, or an ['error'] followed by ['close'],
    leaves the state as the first cleanup made it. *)
Theorem cleanup_twice_is_harmless st c :
  reachable st ->
  removeClient (removeClient st c) c = removeClient st c
  /\ (forall parts, removeClient (handleQuit st c parts) c = handleQuit st c parts)
  /\ step (step st (Error c)) (Close c) = step st (Error c).
Proof.
  intros Rch. pose proof (Inv_reachable st Rch) as I.
  split; [now apply removeClient_again|]. split.
  - intros parts. unfold handleQuit; cbv zeta. apply removeClient_again.
    eapply Inv_core; [symmetry; apply core_broadcastToChannelsOf|exact I].
  - simpl. destruct (allocated st c) eqn:A; simpl; [|now rewrite A].
    assert (A' : allocated (removeClient st c) c = true).
    { unfold allocated in *.
      now destruct (core_inj _ (mkServer _ _ _ []) (core_removeClient st c)) as (_ & _ & ->). }
    rewrite A'. now apply removeClient_again.
Qed.

Lemma cleanup_twice_is_harmless_witness :
  removeClient (removeClient stTwo 0) 0 = removeClient stTwo 0
  /\ (forall parts, removeClient (handleQuit stTwo 0 parts) 0 = handleQuit stTwo 0 parts)
  /\ step (step stTwo (Error 0)) (Close 0) = step stTwo (Error 0).
Proof. apply (cleanup_twice_is_harmless stTwo 0). apply reachable_run. Defined.

(** QUIT does not stop the lines that follow it in the same chunk: when a
    registered client quits and its next line is a JOIN of a [#]-named
    channel, it becomes a member of that channel although it is no
    longer in the registry; the cleanup run at ['close'] takes it out
    again. *)
Theorem line_after_quit_is_still_handled st c qparts jparts :
  reachable st ->
  registered (getClient st c) = true -> 2 <= length jparts ->
  JS.startsWith (nth 1 jparts EmptyString) "#" = true ->
  let st' := handleJoin (handleQuit st c qparts) c jparts in
  In c (membersOf st' (nth 1 jparts EmptyString))
  /\ ~ In c (srv_clients st')
  /\ forall k, ~ In c (membersOf (removeClient st' c) k).
Proof.
  intros Rch R L S st'.
  pose proof (Inv_reachable st Rch) as I.
  set (st1 := handleQuit st c qparts) in *.
  assert (I1 : Inv st1) by now apply Inv_handleQuit.
  destruct (quit_detaches st c qparts I) as (A1 & A2 & A3). fold st1 in A1, A2, A3.
  assert (R1 : registered (getClient st1 c) = true) by now rewrite A3.
  pose proof (handleJoin_success st1 c jparts R1 L S (A2 _)) as E. cbv zeta in E.
  fold st' in E.
  match type of E with _ = joinOutput ?s _ ?n ?ch =>
    pose proof (core_inj _ _ (core_joinOutput s c n ch)) as (Cr & Cm & _) end.
  rewrite <- E in Cr, Cm. simpl in Cr, Cm.
  split; [|split].
  - unfold membersOf at 1. rewrite Cm, get_set_same. simpl.
    apply in_app_iff; simpl; auto.
  - now rewrite Cr.
  - apply removeClient_detaches_inv. now apply Inv_handleJoin.
Qed.

Lemma line_after_quit_is_still_handled_witness :
  let st' := handleJoin (handleQuit stTwo 0 ["QUIT"]) 0 ["JOIN"; "#late"] in
  In 0 (membersOf st' (nth 1 ["JOIN"; "#late"] EmptyString))
  /\ ~ In 0 (srv_clients st')
  /\ forall k, ~ In 0 (membersOf (removeClient st' 0) k).
Proof.
  apply (line_after_quit_is_still_handled stTwo 0 ["QUIT"] ["JOIN"; "#late"]).
  - apply reachable_run.
  - vm_compute; reflexivity.
  - simpl; lia.
  - vm_compute; reflexivity.
Defined.

(** One chunk holding [QUIT] and then [JOIN #late]: alice is out of the
    registry and the only member of the new channel. *)
Example quit_then_join_in_one_chunk :
  let st' := onData stTwo 0 ("QUIT" ++ CRLF ++ "JOIN #late" ++ CRLF) in
  srv_clients st' = [1] /\ membersOf st' "#late" = [0] /\ membersOf st' "#test" = [1].
Proof. vm_compute; auto. Qed.

(** ** Topics *)



(** alice sets the topic; bob reads it back. *)
Example topic_comic_strips :
  let st' := handleMessage stTwo 0 "TOPIC #test :comic strips" in
  wire (getSocket (handleMessage st' 1 "TOPIC #test") 1)
  = (wire (getSocket st' 1) ++ [numeric "332" "bob" "#test :comic strips"])%list.
Proof. vm_compute; reflexivity. Qed.

(** ** Queries *)

Ltac corestrip :=
  repeat (cbv zeta;
          match goal with
          | |- core (sendReply _ _ _ _) = _ => rewrite core_sendReply
          | |- core (notRegistered _ _) = _ => unfold notRegistered
          | |- core (send _ _ _) = _ => rewrite core_send
          | |- core (broadcastToChannel _ _ _ _) = _ => rewrite core_broadcastToChannel
          | |- core (fold_left (whoLine _ _) _ _) = _ => rewrite core_whoLines
          | |- core (fold_left _ (srv_channels _) _) = _ => rewrite core_listLines
          | |- core (if ?b then _ else _) = _ => destruct b
          | |- core (match ?o with Some _ => _ | None => _ end) = _ => destruct o
          | |- core (match ?s with EmptyString => _ | String _ _ => _ end) = _ => destruct s
          end);
  try reflexivity.

(** Only six verbs can change the registries, the directory or a client
    record: a line whose verb is none of USER, NICK, JOIN, PART, QUIT and
    TOPIC (PRIVMSG, PING, WHO, WHOIS, LIST, MODE, and every unknown
    verb) leaves all of them as they were, whatever its arguments; MODE
    in particular never has an effect beyond the lines it writes. *)
Theorem queries_change_nothing st c m :
  ~ In (commandOf m) ["USER"; "NICK"; "JOIN"; "PART"; "QUIT"; "TOPIC"] ->
  core (handleMessage st c m) = core st.
Proof.
  intros H. rewrite handleMessage_dispatch. cbv zeta.
  repeat match goal with
         | |- core (if String.eqb ?a ?b then _ else _) = _ =>
             destruct (String.eqb_spec a b) as [E|_];
             [try (exfalso; apply H; rewrite E; simpl; tauto)|]
         end.
  - unfold handlePrivmsg, memberOf. corestrip.
  - unfold handlePing. corestrip.
  - unfold handleWho, memberOf. corestrip.
  - unfold handleWhois. corestrip.
  - unfold handleList. corestrip.
  - unfold handleMode, memberOf. corestrip.
  - corestrip.
Qed.

Lemma queries_change_nothing_witness :
  core (handleMessage stTwo 0 "MODE #test +ntk secret") = core stTwo.
Proof.
  apply (queries_change_nothing stTwo 0 "MODE #test +ntk secret").
  vm_compute. intuition discriminate.
Defined.




(** bob, in [#test] and [#lobby], lists the channels. *)
Example list_two_channels :
  let st := handleMessage stTwo 1 "JOIN #lobby" in
  wire (getSocket (handleMessage st 0 "LIST") 0)
  = (wire (getSocket st 0)
     ++ [numeric "321" "alice" "Channel :Users  Name";
         numeric "322" "alice" "#test 2 :";
         numeric "322" "alice" "#lobby 1 :";
         numeric "323" "alice" ":End of /LIST"])%list.
Proof. vm_compute; reflexivity. Qed.



(** ** USER *)

Lemma checkRegistration_record st c d :
  getClient (checkRegistration st c) d = getClient st d
  \/ (d = c /\ getClient (checkRegistration st c) c = withRegistered (getClient st c) true).
Proof.
  unfold checkRegistration. destruct (_ && _) eqn:E; [|now left].
  cbv zeta. rewrite !getClient_sendReply.
  destruct (Nat.eq_dec d c) as [->|Hne];
    [|left; apply getClient_setClient_other; congruence].
  destruct (Nat.lt_ge_cases c (length (heap st))) as [H|H].
  - right. split; auto. now apply getClient_setClient_same.
  - exfalso. apply andb_prop in E as [E _]. apply andb_prop in E as [_ E].
    unfold getClient in E. rewrite nth_overflow in E by exact H. discriminate.
Qed.

(** A USER line [verb user mode unused :real name] on an existing
    connection stores the user name and, as real name, everything after
    the colon, spaces included; the nickname, the hostname, the joined
    channels and every other client record stay as they were.  (Without
    the colon the real name loses its first character.) *)
Theorem user_stores_identity st c verb user a b rest :
  noSpace verb = true -> JS.toUpperCase verb = "USER" ->
  noSpace user = true -> noSpace a = true -> noSpace b = true ->
  c < length (heap st) ->
  let st' := handleMessage st c (verb ++ " " ++ user ++ " " ++ a ++ " " ++ b ++ " " ++ rest) in
  username (getClient st' c) = Some user
  /\ realname (getClient st' c) = Some (JS.substring1 rest)
  /\ nickname (getClient st' c) = nickname (getClient st c)
  /\ hostname (getClient st' c) = hostname (getClient st c)
  /\ channels (getClient st' c) = channels (getClient st c)
  /\ (forall d, d <> c -> getClient st' d = getClient st d).
Proof.
  intros Hv Hu H1 H2 H3 Ha st'.
  set (m := verb ++ " " ++ user ++ " " ++ a ++ " " ++ b ++ " " ++ rest) in *.
  assert (P : JS.split m = (verb :: user :: a :: b :: JS.split rest)).
  { unfold m.
    change (verb ++ " " ++ user ++ " " ++ a ++ " " ++ b ++ " " ++ rest)
      with (verb ++ String JS.space (user ++ String JS.space
              (a ++ String JS.space (b ++ String JS.space rest)))).
    now rewrite !split_app_space, (split_token verb Hv), (split_token user H1),
      (split_token a H2), (split_token b H3). }
  set (cl' := withUser (getClient st c) (Some user) (Some (JS.substring1 rest))).
  assert (E : st' = checkRegistration (setClient st c cl') c).
  { unfold st'. rewrite handleMessage_dispatch. cbv zeta. unfold commandOf.
    rewrite P. simpl hd. rewrite Hu. simpl String.eqb. cbv iota.
    unfold handleUser. simpl length.
    pose proof (split_nonempty rest) as N.
    destruct (JS.split rest) as [|h t] eqn:S; [congruence|].
    simpl Nat.ltb. cbv iota zeta. simpl nth. unfold JS.slice. simpl skipn.
    rewrite <- S, join_split. reflexivity. }
  assert (G1 : getClient (setClient st c cl') c = cl')
    by (apply getClient_setClient_same; exact Ha).
  assert (Gc : getClient st' c = cl' \/ getClient st' c = withRegistered cl' true).
  { rewrite E. destruct (checkRegistration_record (setClient st c cl') c c) as [H|[_ H]];
      rewrite H, G1; auto. }
  split; [|split; [|split; [|split; [|split]]]];
    try (destruct Gc as [-> | ->]; reflexivity).
  intros d Hd. rewrite E.
  destruct (checkRegistration_record (setClient st c cl') c d) as [H|[H _]];
    [|contradiction].
  rewrite H. apply getClient_setClient_other; congruence.
Qed.

Lemma user_stores_identity_witness :
  let st' := handleMessage stThree 2
               ("user" ++ " " ++ "carol" ++ " " ++ "0" ++ " " ++ "*" ++ " " ++ ":Carol  C. Cat") in
  username (getClient st' 2) = Some "carol"
  /\ realname (getClient st' 2) = Some (JS.substring1 ":Carol  C. Cat")
  /\ nickname (getClient st' 2) = nickname (getClient stThree 2)
  /\ hostname (getClient st' 2) = hostname (getClient stThree 2)
  /\ channels (getClient st' 2) = channels (getClient stThree 2)
  /\ (forall d, d <> 2 -> getClient st' d = getClient stThree d).
Proof.
  apply (user_stores_identity stThree 2 "user" "carol" "0" "*" ":Carol  C. Cat");
    try reflexivity.
  vm_compute; lia.
Defined.

(** * Registration, step by step *)

(** ** What leaves the identity of every connection alone *)

Lemma sameIdentity_core st st' : core st = core st' -> sameIdentity st st'.
Proof. intros H d; now rewrite (getClient_core _ _ d H). Qed.

Lemma sameIdentity_trans a b c : sameIdentity a b -> sameIdentity b c -> sameIdentity a c.
Proof. intros H1 H2 d. now rewrite H2, H1. Qed.

Lemma sameIdentity_setClient st c cl :
  identity cl = identity (getClient st c) -> sameIdentity st (setClient st c cl).
Proof.
  intros H d. rewrite getClient_setClient. destruct (_ && _) eqn:E; auto.
  apply andb_prop in E as [E _]; apply Nat.eqb_eq in E; subst; auto.
Qed.

Lemma sameIdentity_setChannels st m : sameIdentity st (setChannels st m).
Proof. intros d; reflexivity. Qed.

Lemma sameIdentity_removeClient st c : sameIdentity st (removeClient st c).
Proof. intros d; now rewrite getClient_removeClient. Qed.

Ltac ident :=
  repeat (cbv zeta;
          match goal with
          | |- sameIdentity ?s ?s => intros ?; reflexivity
          | |- sameIdentity _ (sendReply _ _ _ _) =>
              eapply sameIdentity_trans;
              [|apply sameIdentity_core; symmetry; apply core_sendReply]
          | |- sameIdentity _ (notRegistered _ _) =>
              eapply sameIdentity_trans;
              [|apply sameIdentity_core; symmetry; apply core_sendReply]
          | |- sameIdentity _ (send _ _ _) =>
              eapply sameIdentity_trans;
              [|apply sameIdentity_core; symmetry; apply core_send]
          | |- sameIdentity _ (broadcastToChannel _ _ _ _) =>
              eapply sameIdentity_trans;
              [|apply sameIdentity_core; symmetry; apply core_broadcastToChannel]
          | |- sameIdentity _ (broadcastToChannelsOf _ _ _ _) =>
              eapply sameIdentity_trans;
              [|apply sameIdentity_core; symmetry; apply core_broadcastToChannelsOf]
          | |- sameIdentity _ (fold_left (whoLine _ _) _ _) =>
              eapply sameIdentity_trans;
              [|apply sameIdentity_core; symmetry; apply core_whoLines]
          | |- sameIdentity _ (fold_left _ (srv_channels _) _) =>
              eapply sameIdentity_trans;
              [|apply sameIdentity_core; symmetry; apply core_listLines]
          | |- sameIdentity _ (setChannels _ _) =>
              eapply sameIdentity_trans;
              [|apply sameIdentity_setChannels]
          | |- sameIdentity _ (setClient _ _ _) =>
              eapply sameIdentity_trans;
              [|apply sameIdentity_setClient; reflexivity]
          | |- sameIdentity _ (removeClient _ _) =>
              eapply sameIdentity_trans;
              [|apply sameIdentity_removeClient]
          | |- sameIdentity _ (if ?b then _ else _) => destruct b eqn:?
          | |- sameIdentity _ (match ?o with Some _ => _ | None => _ end) =>
              destruct o eqn:?
          | |- sameIdentity _ (match ?s with EmptyString => _ | String _ _ => _ end) =>
              destruct s
          end).

(** Only USER and NICK write a nickname, a username or the registered flag. *)
Lemma sameIdentity_handleMessage st c m :
  commandOf m <> "USER" -> commandOf m <> "NICK" ->
  sameIdentity st (handleMessage st c m).
Proof.
  intros HU HN. rewrite handleMessage_dispatch. cbv zeta.
  destruct (String.eqb_spec (commandOf m) "USER"); [contradiction|].
  destruct (String.eqb_spec (commandOf m) "NICK"); [contradiction|].
  repeat match goal with
         | |- sameIdentity _ (if ?b then _ else _) => destruct b
         end.
  - unfold handleJoin.
    destruct (JS.get (nth 1 (JS.split m) EmptyString) (srv_channels st)); ident.
  - unfold handlePart, memberOf. ident.
  - unfold handlePrivmsg, memberOf. ident.
  - unfold handlePing. ident.
  - unfold handleQuit. ident.
  - unfold handleWho, memberOf. ident.
  - unfold handleWhois. ident.
  - unfold handleList. ident.
  - unfold handleTopic, memberOf. ident.
  - unfold handleMode, memberOf. ident.
  - ident.
Qed.

(** ** An unregistered connection lacks one of the two fields *)

Lemma checkRegistration_unpromoted st c :
  registered (getClient st c) = false ->
  present (getClient (checkRegistration st c) c) = false ->
  checkRegistration st c = st.
Proof.
  intros R P. destruct (present (getClient st c)) eqn:E.
  - destruct (checkRegistration_promotes st c R E) as (G & _). cbv zeta in G.
    rewrite G in P. unfold present in *; simpl in P. congruence.
  - now apply checkRegistration_absent.
Qed.

(** A NICK or USER from a connection that is not registered either
    promotes it, both fields being present afterwards, or leaves it
    unregistered with a field still missing. *)
Lemma handleNick_unregistered st c parts :
  registered (getClient st c) = false -> present (getClient st c) = false ->
  let st' := handleNick st c parts in
  registered (getClient st' c) = present (getClient st' c)
  /\ (present (getClient st' c) = true -> promoted st st' c).
Proof.
  intros R P st'.
  split; [|now apply handleNick_promotes].
  destruct (present (getClient st' c)) eqn:P'.
  - now destruct (handleNick_promotes st c parts R P P') as (? & _).
  - unfold st', handleNick in *.
    destruct (length parts <? 2)%nat; [now rewrite getClient_sendReply|].
    destruct (nickInUse st c _); [now rewrite getClient_sendReply|].
    cbv zeta in *. rewrite R in *. simpl andb in *. cbv iota in *.
    set (st1 := setClient st c _) in *.
    assert (R1 : registered (getClient st1 c) = false).
    { unfold st1. rewrite getClient_setClient.
      match goal with |- context [if ?b then _ else _] => destruct b end; simpl; auto. }
    rewrite (checkRegistration_unpromoted st1 c R1 P'). exact R1.
Qed.

Lemma handleUser_unregistered st c parts :
  registered (getClient st c) = false -> present (getClient st c) = false ->
  let st' := handleUser st c parts in
  registered (getClient st' c) = present (getClient st' c)
  /\ (present (getClient st' c) = true -> promoted st st' c).
Proof.
  intros R P st'.
  split; [|now apply handleUser_promotes].
  destruct (present (getClient st' c)) eqn:P'.
  - now destruct (handleUser_promotes st c parts R P P') as (? & _).
  - unfold st', handleUser in *.
    destruct (length parts <? 5)%nat; [now rewrite getClient_sendReply|].
    cbv zeta in *.
    set (st1 := setClient st c _) in *.
    assert (R1 : registered (getClient st1 c) = false).
    { unfold st1. rewrite getClient_setClient.
      match goal with |- context [if ?b then _ else _] => destruct b end; simpl; auto. }
    rewrite (checkRegistration_unpromoted st1 c R1 P'). exact R1.
Qed.

(** One event, seen from a connection that is not registered and lacks
    a field. *)
Lemma step_unregistered st e c :
  registered (getClient st c) = false -> present (getClient st c) = false ->
  let st' := step st e in
  registered (getClient st' c) = present (getClient st' c)
  /\ (present (getClient st' c) = true -> promoted st st' c).
Proof.
  intros R P st'.
  assert (Same : identity (getClient st' c) = identity (getClient st c) ->
                 registered (getClient st' c) = present (getClient st' c)
                 /\ (present (getClient st' c) = true -> promoted st st' c)).
  { unfold identity, present in *. intros [= E1 E2 E3].
    rewrite E1, E2, E3, R, P. split; [reflexivity|discriminate]. }
  destruct e as [a|d m|d|d|d]; unfold st' in *; simpl in *.
  - apply Same.
    destruct (Nat.lt_ge_cases c (length (heap st))) as [H|H].
    + now rewrite getClient_accept.
    + unfold getClient at 2. rewrite (nth_overflow _ _ H).
      unfold getClient, accept; simpl.
      destruct (Nat.eq_dec c (length (heap st))) as [->|Hne].
      * rewrite nth_middle. reflexivity.
      * rewrite nth_overflow; [reflexivity|]. rewrite length_app; simpl; lia.
  - destruct (allocated st d); [|now apply Same].
    destruct (Nat.eq_dec d c) as [->|Hne].
    + destruct (String.eqb_spec (commandOf m) "USER") as [EU|NU].
      { rewrite handleMessage_dispatch. cbv zeta. rewrite EU. simpl String.eqb. cbv iota.
        now apply handleUser_unregistered. }
      destruct (String.eqb_spec (commandOf m) "NICK") as [EN|NN].
      { rewrite handleMessage_dispatch. cbv zeta. rewrite EN. simpl String.eqb. cbv iota.
        now apply handleNick_unregistered. }
      apply Same. now apply sameIdentity_handleMessage.
    + apply Same. destruct (Touches_handleMessage d st m) as [_ _ _ T _ _ _ _ _ _].
      rewrite T by congruence. reflexivity.
  - destruct (allocated st d); apply Same; [|reflexivity].
    now rewrite getClient_removeClient.
  - destruct (allocated st d); apply Same; [|reflexivity].
    now rewrite getClient_removeClient.
  - destruct (allocated st d); apply Same; reflexivity.
Qed.

Lemma run_unregistered_absent es : forall st,
  (forall c, registered (getClient st c) = false -> present (getClient st c) = false) ->
  forall c, registered (getClient (run es st) c) = false ->
            present (getClient (run es st) c) = false.
Proof.
  unfold run; induction es as [|e r IH]; intros st H; simpl; [exact H|].
  apply IH. intros c R'.
  destruct (registered (getClient st c)) eqn:R.
  - rewrite (keepsRegistered_step st e c R) in R'. discriminate.
  - destruct (step_unregistered st e c R (H c R)) as [E _]. cbv zeta in E. congruence.
Qed.

Lemma unregistered_absent st c :
  reachable st -> registered (getClient st c) = false -> present (getClient st c) = false.
Proof.
  intros (es & <-). apply run_unregistered_absent.
  intros d _. unfold getClient, initial; simpl. now destruct d.
Qed.

(** ** Promotion (C2) *)

(** The scan of [handleNick] finds nothing exactly when no other client
    of the registry holds the name. *)
Lemma nickInUse_false st c newNick :
  (forall d, In d (srv_clients st) -> d <> c -> nickname (getClient st d) <> Some newNick) ->
  nickInUse st c newNick = false.
Proof.
  intros H. destruct (nickInUse st c newNick) eqn:E; [|reflexivity].
  unfold nickInUse in E.
  apply existsb_exists in E as (d & Hin & Hd). apply andb_prop in Hd as [Hne Hs].
  apply negb_true_iff, Nat.eqb_neq in Hne.
  destruct (nickname (getClient st d)) as [t|] eqn:N; simpl in Hs; [|discriminate].
  apply String.eqb_eq in Hs; subst t. exfalso. apply (H d); auto.
Qed.

(** NICK from a registered client, case by case. *)
Lemma handleNick_registered_cases st c parts :
  registered (getClient st c) = true ->
  let newNick := nth 1 parts EmptyString in
  let st' := handleNick st c parts in
  (length parts < 2 -> st' = sendReply st c "431" ":No nickname given")
  /\ (2 <= length parts -> nickInUse st c newNick = true ->
      st' = sendReply st c "433" (newNick ++ " :Nickname is already in use"))
  /\ (2 <= length parts -> nickInUse st c newNick = false ->
      getClient st' c = withNickname (getClient st c) (Some newNick)
      /\ getSocket st' c = getSocket st c).
Proof.
  intros R newNick st'. unfold st', handleNick. fold newNick.
  split; [|split].
  - intros L. destruct (Nat.ltb_spec (length parts) 2); [reflexivity|lia].
  - intros L U. destruct (Nat.ltb_spec (length parts) 2); [lia|]. now rewrite U.
  - intros L U. destruct (Nat.ltb_spec (length parts) 2); [lia|]. rewrite U. cbv zeta.
    pose proof (registered_allocated _ _ R) as Ha.
    set (st1 := setClient st c _).
    assert (G1 : getClient st1 c = withNickname (getClient st c) (Some newNick))
      by (apply getClient_setClient_same; auto).
    match goal with |- context [checkRegistration ?s c] => set (st2 := s) end.
    assert (C2 : core st2 = core st1)
      by (unfold st2; destruct (_ && _); auto using core_broadcastToChannelsOf).
    assert (S2 : getSocket st2 c = getSocket st c).
    { unfold st2; destruct (_ && _); auto.
      now rewrite getSocket_broadcastToChannelsOf_self. }
    rewrite checkRegistration_registered
      by (rewrite (getClient_core _ _ c C2), G1; exact R).
    split; [|exact S2].
    now rewrite (getClient_core _ _ c C2), G1.
Qed.

(** USER from a registered client, case by case. *)
Lemma handleUser_registered_cases st c parts :
  registered (getClient st c) = true ->
  let st' := handleUser st c parts in
  (length parts < 5 -> st' = sendReply st c "461" "USER :Not enough parameters")
  /\ (5 <= length parts ->
      username (getClient st' c) = Some (nth 1 parts EmptyString)
      /\ nickname (getClient st' c) = nickname (getClient st c)
      /\ sockets st' = sockets st).
Proof.
  intros R st'. unfold st', handleUser.
  split.
  - intros L. destruct (Nat.ltb_spec (length parts) 5); [reflexivity|lia].
  - intros L. destruct (Nat.ltb_spec (length parts) 5); [lia|]. cbv zeta.
    pose proof (registered_allocated _ _ R) as Ha.
    set (st1 := setClient st c _).
    assert (G1 : getClient st1 c =
                 withUser (getClient st c) (Some (nth 1 parts EmptyString))
                   (Some (JS.substring1 (JS.join (JS.slice 4 parts)))))
      by (apply getClient_setClient_same; auto).
    rewrite checkRegistration_registered by (rewrite G1; exact R).
    rewrite G1. auto.
Qed.

(** C2.  In a reachable state, a connection that is not registered lacks
    its nickname or its username (present meaning set and non-empty), and
    over any one event it is registered afterwards exactly when both are
    present afterwards: it stays unregistered as long as one is missing,
    and at the moment both are present it is promoted, that is, it is
    registered and its socket has been sent the four welcome lines 001,
    002, 003, 004 for its identity, in that order, and nothing else,
    while no other socket is written to.  Once it is registered, it
    stays registered through every later event, so it is never promoted
    a second time; a NICK with a name that no other client of the
    registry holds updates the nickname and writes nothing to the
    client (one without a name is answered with one 431 line, one with a
    name another client holds with one 433 line); a USER of five tokens
    or more updates the username and writes to no socket at all (a
    shorter one is answered with one 461 line). *)
Theorem registration_welcome st c e parts :
  reachable st ->
  (registered (getClient st c) = false ->
   let st' := step st e in
   present (getClient st c) = false
   /\ registered (getClient st' c) = present (getClient st' c)
   /\ (present (getClient st' c) = true -> promoted st st' c))
  /\ (registered (getClient st c) = true ->
      let nick := JS.orElse (nickname (getClient st c)) "*" in
      let arg := nth 1 parts EmptyString in
      (forall es, registered (getClient (run es st) c) = true)
      /\ (let st' := handleNick st c parts in
          (2 <= length parts ->
           (forall d, In d (srv_clients st) -> d <> c ->
                      nickname (getClient st d) <> Some arg) ->
           nickname (getClient st' c) = Some arg
           /\ registered (getClient st' c) = true
           /\ getSocket st' c = getSocket st c)
          /\ (2 <= length parts ->
              (exists d, In d (srv_clients st) /\ d <> c
                         /\ nickname (getClient st d) = Some arg) ->
              core st' = core st
              /\ getSocket st' c
                 = deliver (":irc.comicserver.local 433 " ++ nick ++ " " ++ arg
                            ++ " :Nickname is already in use") (getSocket st c))
          /\ (length parts < 2 ->
              core st' = core st
              /\ getSocket st' c
                 = deliver (":irc.comicserver.local 431 " ++ nick ++ " :No nickname given")
                     (getSocket st c)))
      /\ (let st' := handleUser st c parts in
          (5 <= length parts ->
           username (getClient st' c) = Some arg
           /\ nickname (getClient st' c) = nickname (getClient st c)
           /\ registered (getClient st' c) = true
           /\ sockets st' = sockets st)
          /\ (length parts < 5 ->
              core st' = core st
              /\ getSocket st' c
                 = deliver (":irc.comicserver.local 461 " ++ nick
                            ++ " USER :Not enough parameters") (getSocket st c)))).
Proof.
  intros Rch. split.
  - intros R st'.
    pose proof (unregistered_absent st c Rch R) as P.
    split; [exact P|]. now apply step_unregistered.
  - intros R nick arg.
    assert (Reply : forall st' code m,
               st' = sendReply st c code m ->
               core st' = core st
               /\ getSocket st' c
                  = deliver (":" ++ serverName ++ " " ++ code ++ " " ++ nick ++ " " ++ m)
                      (getSocket st c)).
    { intros st' code m ->. split; [apply core_sendReply|].
      now rewrite getSocket_sendReply, Nat.eqb_refl. }
    split; [intros es; now apply keepsRegistered_run|]. split.
    + destruct (handleNick_registered_cases st c parts R) as (A & B & C).
      pose proof (keepsRegistered_handleNick st c parts c R) as R'.
      split; [|split].
      * intros L U. destruct (C L (nickInUse_false st c arg U)) as [G S].
        rewrite G. auto.
      * intros L (d & Hin & Hne & Hn).
        apply (Reply _ "433" (arg ++ " :Nickname is already in use")).
        apply B; auto. now apply (nickInUse_true st c d).
      * intros L. apply (Reply _ "431" ":No nickname given"). now apply A.
    + destruct (handleUser_registered_cases st c parts R) as (A & B).
      pose proof (keepsRegistered_handleUser st c parts c R) as R'.
      split.
      * intros L. destruct (B L) as (U & N & S). auto.
      * intros L. apply (Reply _ "461" "USER :Not enough parameters"). now apply A.
Qed.

Lemma registration_welcome_witness :
  promoted stUserSent (step stUserSent (Line 2 "NICK carol")) 2
  /\ (forall es, registered (getClient (run es stTwo) 1) = true).
Proof.
  assert (R : registered (getClient stUserSent 2) = false) by (vm_compute; reflexivity).
  assert (R' : registered (getClient stTwo 1) = true) by (vm_compute; reflexivity).
  split.
  - apply (proj2 (proj2 (proj1 (registration_welcome stUserSent 2 (Line 2 "NICK carol") []
                                  (reachable_run _)) R))).
    vm_compute; reflexivity.
  - exact (proj1 (proj2 (registration_welcome stTwo 1 (Connect None)
                           ["USER"; "rob"; "0"; "*"; ":Rob"] (reachable_run _)) R')).
Defined.

(** bob, registered, sends USER again and then takes a new nickname:
    both fields are updated and nothing is written to him. *)
Example resend_after_registration :
  let st' := run [Line 1 "USER rob 0 * :Rob"; Line 1 "NICK robert"] stTwo in
  username (getClient st' 1) = Some "rob"
  /\ nickname (getClient st' 1) = Some "robert"
  /\ registered (getClient st' 1) = true
  /\ getSocket st' 1 = getSocket stTwo 1.
Proof. vm_compute; auto. Qed.

(** A connection that has sent only its USER line, or only its NICK
    line, is not registered and has been sent nothing. *)
Example one_field_is_not_enough :
  registered (getClient stUserSent 2) = false
  /\ wire (getSocket stUserSent 2) = []
  /\ (let st := run [Connect None; Line 0 "NICK dave"] initial in
      registered (getClient st 0) = false /\ wire (getSocket st 0) = []).
Proof. vm_compute; auto. Qed.

(** * Relayed text, from the line as typed *)

Lemma string_app_assoc (a b c : string) : (a ++ b) ++ c = a ++ b ++ c.
Proof. induction a as [|x a IH]; simpl; [reflexivity|now rewrite IH]. Qed.

(** The prefix of a relayed line, written out. *)
Lemma prefixOf_app cl x :
  prefixOf cl ++ x
  = ":" ++ JS.tpl (nickname cl) ++ "!" ++ JS.tpl (username cl) ++ "@" ++ hostname cl ++ x.
Proof.
  unfold prefixOf. simpl. f_equal.
  rewrite !string_app_assoc. simpl. f_equal.
  rewrite !string_app_assoc. reflexivity.
Qed.

(** A line either is one token, or is a first token, a space and a rest
    whose tokens are the line's other tokens. *)
Lemma split_uncons s :
  (noSpace s = true /\ JS.split s = [s])
  \/ exists verb rest,
       s = verb ++ " " ++ rest /\ noSpace verb = true /\ JS.split s = verb :: JS.split rest.
Proof.
  induction s as [|c r IH]; simpl.
  - left; auto.
  - destruct (Ascii.eqb_spec c JS.space) as [->|Hne].
    + right. exists EmptyString, r. auto.
    + destruct IH as [[N E]|(v & rest & E & N & S)].
      * left. rewrite N, E. auto.
      * right. exists (String c v), rest. rewrite S, E; simpl.
        rewrite N. destruct (Ascii.eqb_spec c JS.space); [contradiction|]. auto.
Qed.

(** A line of at least three tokens is a verb, a target and a rest. *)
Lemma three_tokens m :
  3 <= length (JS.split m) ->
  exists verb target rest,
    m = verb ++ " " ++ target ++ " " ++ rest
    /\ noSpace verb = true /\ noSpace target = true.
Proof.
  intros L.
  destruct (split_uncons m) as [[_ E]|(verb & r & -> & Nv & S)];
    [rewrite E in L; simpl in L; lia|].
  rewrite S in L; simpl in L.
  destruct (split_uncons r) as [[_ E]|(target & rest & -> & Nt & S')];
    [rewrite E in L; simpl in L; lia|].
  exists verb, target, rest. auto.
Qed.

(** What [handleMessage] does with a PRIVMSG line [verb target rest] of a
    registered client: the relayed line ends in [rest] without its first
    character. *)
Lemma handleMessage_privmsg st c verb target rest :
  noSpace verb = true -> JS.toUpperCase verb = "PRIVMSG" -> noSpace target = true ->
  registered (getClient st c) = true ->
  let cl := getClient st c in
  let line := ":" ++ JS.tpl (nickname cl) ++ "!" ++ JS.tpl (username cl) ++ "@" ++ hostname cl
              ++ " PRIVMSG " ++ target ++ " :"
              ++ match rest with String _ t => t | EmptyString => EmptyString end in
  handleMessage st c (verb ++ " " ++ target ++ " " ++ rest)
  = if JS.startsWith target "#" then
      match memberOf st c target with
      | Some channel => broadcastToChannel st channel line (Some c)
      | None => sendReply st c "404" (target ++ " :Cannot send to channel")
      end
    else
      match findClientByNickname st target with
      | Some t => send st t line
      | None => sendReply st c "401" (target ++ " :No such nick/channel")
      end.
Proof.
  intros Hv Hu Ht R cl line.
  pose proof (split_trailing verb target rest Hv Ht) as (_ & H1 & H2 & H3).
  set (parts := JS.split (verb ++ " " ++ target ++ " " ++ rest)) in *.
  assert (E : handleMessage st c (verb ++ " " ++ target ++ " " ++ rest)
              = handlePrivmsg st c parts).
  { rewrite handleMessage_dispatch. cbv zeta.
    change (verb ++ " " ++ target ++ " " ++ rest)
      with (verb ++ String JS.space (target ++ " " ++ rest)).
    rewrite (commandOf_verb verb _ Hv), Hu. reflexivity. }
  assert (L : (length parts <? 3)%nat = false) by (apply Nat.ltb_ge; exact H3).
  rewrite E. unfold handlePrivmsg, privmsgText.
  rewrite R, L; simpl negb; cbv iota zeta. rewrite H1, H2.
  fold cl. rewrite prefixOf_app. reflexivity.
Qed.

(** A PRIVMSG line with a target and nothing after it. *)
Lemma handleMessage_privmsg_short st c verb target :
  noSpace verb = true -> JS.toUpperCase verb = "PRIVMSG" -> noSpace target = true ->
  registered (getClient st c) = true ->
  handleMessage st c (verb ++ " " ++ target)
  = sendReply st c "461" "PRIVMSG :Not enough parameters".
Proof.
  intros Hv Hu Ht R.
  rewrite handleMessage_dispatch. cbv zeta.
  change (verb ++ " " ++ target) with (verb ++ String JS.space target).
  rewrite (commandOf_verb verb _ Hv), Hu. simpl String.eqb. cbv iota.
  rewrite split_app_space, (split_token verb Hv), (split_token target Ht).
  unfold handlePrivmsg. rewrite R. reflexivity.
Qed.

(** ** Channel messages (C6) *)

(** C6, as the code has it.  In a reachable state, for a registered
    client and a PRIVMSG line whose target starts with [#]: when the line
    carries a text after the target (at least three tokens), the
    registries and all records are unchanged, and if the sender is not a
    member of the target channel (or there is no such channel) the one
    line written is the 404 reply on the sender's socket; if the sender
    is a member, the line [:nick!user@host PRIVMSG target :text], with
    the text that follows the first character after the target, is
    written once to the socket of every other member (a socket that is
    not writable drops it) and to no other socket, the sender's
    included.  When the line ends after the target (two tokens), member
    or not, the one line written is the 461 reply on the sender's
    socket. *)
Theorem privmsg_channel_routing st c verb target a text :
  reachable st ->
  registered (getClient st c) = true ->
  noSpace verb = true -> JS.toUpperCase verb = "PRIVMSG" ->
  noSpace target = true -> JS.startsWith target "#" = true ->
  let cl := getClient st c in
  let nick := JS.orElse (nickname cl) "*" in
  let line := ":" ++ JS.tpl (nickname cl) ++ "!" ++ JS.tpl (username cl) ++ "@" ++ hostname cl
              ++ " PRIVMSG " ++ target ++ " :" ++ text in
  let st' := handleMessage st c (verb ++ " " ++ target ++ " " ++ String a text) in
  let st0 := handleMessage st c (verb ++ " " ++ target) in
  core st' = core st
  /\ (~ In c (membersOf st target) ->
      forall d, getSocket st' d =
                if Nat.eqb d c
                then deliver (":irc.comicserver.local 404 " ++ nick ++ " " ++ target
                              ++ " :Cannot send to channel") (getSocket st c)
                else getSocket st d)
  /\ (In c (membersOf st target) ->
      forall d, getSocket st' d =
                if JS.has Nat.eqb d (membersOf st target) && negb (Nat.eqb d c)
                then deliver line (getSocket st d)
                else getSocket st d)
  /\ core st0 = core st
  /\ (forall d, getSocket st0 d =
                if Nat.eqb d c
                then deliver (":irc.comicserver.local 461 " ++ nick
                              ++ " PRIVMSG :Not enough parameters") (getSocket st c)
                else getSocket st d).
Proof.
  intros Rch R Hv Hu Ht S cl nick line st' st0.
  apply Inv_reachable in Rch as [_ I2 _ _ _ _].
  assert (E : st' =
              match memberOf st c target with
              | Some channel => broadcastToChannel st channel line (Some c)
              | None => sendReply st c "404" (target ++ " :Cannot send to channel")
              end).
  { unfold st'. rewrite (handleMessage_privmsg st c verb target (String a text) Hv Hu Ht R).
    cbv zeta. rewrite S. reflexivity. }
  assert (E0 : st0 = sendReply st c "461" "PRIVMSG :Not enough parameters")
    by (apply handleMessage_privmsg_short; auto).
  split; [|split; [|split; [|split]]].
  - rewrite E. destruct (memberOf st c target);
      auto using core_broadcastToChannel, core_sendReply.
  - intros H d. rewrite E, (memberOf_not_member _ _ _ H), getSocket_sendReply. reflexivity.
  - intros H d. destruct (memberOf_member _ _ _ H) as (ch & M & Hc).
    rewrite E, M. apply memberOf_Some in M as [G _].
    rewrite getSocket_broadcastToChannel by eauto.
    rewrite Hc. reflexivity.
  - rewrite E0. apply core_sendReply.
  - intros d. rewrite E0, getSocket_sendReply. reflexivity.
Qed.

Lemma privmsg_channel_routing_witness :
  let cl := getClient stTwo 1 in
  let nick := JS.orElse (nickname cl) "*" in
  let line := ":" ++ JS.tpl (nickname cl) ++ "!" ++ JS.tpl (username cl) ++ "@" ++ hostname cl
              ++ " PRIVMSG " ++ "#test" ++ " :" ++ "hi all" in
  let st' := handleMessage stTwo 1 ("privmsg" ++ " " ++ "#test" ++ " " ++ String ":" "hi all") in
  let st0 := handleMessage stTwo 1 ("privmsg" ++ " " ++ "#test") in
  core st' = core stTwo
  /\ (~ In 1 (membersOf stTwo "#test") ->
      forall d, getSocket st' d =
                if Nat.eqb d 1
                then deliver (":irc.comicserver.local 404 " ++ nick ++ " " ++ "#test"
                              ++ " :Cannot send to channel") (getSocket stTwo 1)
                else getSocket stTwo d)
  /\ (In 1 (membersOf stTwo "#test") ->
      forall d, getSocket st' d =
                if JS.has Nat.eqb d (membersOf stTwo "#test") && negb (Nat.eqb d 1)
                then deliver line (getSocket stTwo d)
                else getSocket stTwo d)
  /\ core st0 = core stTwo
  /\ (forall d, getSocket st0 d =
                if Nat.eqb d 1
                then deliver (":irc.comicserver.local 461 " ++ nick
                              ++ " PRIVMSG :Not enough parameters") (getSocket stTwo 1)
                else getSocket stTwo d).
Proof.
  apply (privmsg_channel_routing stTwo 1 "privmsg" "#test" ":" "hi all").
  - apply reachable_run.
  - vm_compute; reflexivity.
  - vm_compute; reflexivity.
  - vm_compute; reflexivity.
  - vm_compute; reflexivity.
  - vm_compute; reflexivity.
Defined.

(** C6 as stated fails on a PRIVMSG that ends after its target: carol is
    registered and not a member of [#test]; her [PRIVMSG #test] has a
    target that starts with the sigil, and is answered with 461, not with
    404. *)
Lemma privmsg_without_text_is_not_404 :
  let st' := handleMessage stCarol 2 "PRIVMSG #test" in
  reachable stCarol
  /\ registered (getClient stCarol 2) = true
  /\ nth 1 (JS.split "PRIVMSG #test") EmptyString = "#test"
  /\ ~ In 2 (membersOf stCarol "#test")
  /\ writable (getSocket stCarol 2) = true
  /\ wire (getSocket st' 2)
     = (wire (getSocket stCarol 2)
        ++ [(":irc.comicserver.local 461 carol PRIVMSG :Not enough parameters" ++ CRLF)%string])%list
  /\ wire (getSocket st' 2)
     <> (wire (getSocket stCarol 2)
         ++ [(":irc.comicserver.local 404 carol #test :Cannot send to channel" ++ CRLF)%string])%list.
Proof.
  split; [apply reachable_run|].
  vm_compute. repeat split; try reflexivity.
  - intros [H|[H|[]]]; discriminate.
  - discriminate.
Qed.

(** ** The first character of the text (C10) *)

(** C10.  In a reachable state, a line of a registered client whose verb
    is PRIVMSG and that has at least three tokens is a verb, a target
    and a rest; the rest is the tokens from the third on joined by
    spaces, that is, what the user typed after the target; and the line
    relayed, to every other member of a channel the sender is in or to
    the client holding the target nickname, ends in the rest without its
    first character, whatever that character is: a colon if the user
    wrote one, and the first character of the text otherwise. *)
Theorem privmsg_text_loses_first_character st c m :
  reachable st ->
  registered (getClient st c) = true ->
  commandOf m = "PRIVMSG" ->
  3 <= length (JS.split m) ->
  exists verb target rest,
    m = verb ++ " " ++ target ++ " " ++ rest
    /\ nth 1 (JS.split m) EmptyString = target
    /\ JS.join (JS.slice 2 (JS.split m)) = rest
    /\ let cl := getClient st c in
       let text := match rest with String _ t => t | EmptyString => EmptyString end in
       let line := ":" ++ JS.tpl (nickname cl) ++ "!" ++ JS.tpl (username cl) ++ "@"
                   ++ hostname cl ++ " PRIVMSG " ++ target ++ " :" ++ text in
       let st' := handleMessage st c m in
       (JS.startsWith target "#" = true -> In c (membersOf st target) ->
        forall d, In d (membersOf st target) -> d <> c ->
                  getSocket st' d = deliver line (getSocket st d))
       /\ (JS.startsWith target "#" = false ->
           forall t, findClientByNickname st target = Some t ->
                     getSocket st' t = deliver line (getSocket st t)).
Proof.
  intros Rch R Hc L.
  apply Inv_reachable in Rch as [_ I2 _ _ _ _].
  destruct (three_tokens m L) as (verb & target & rest & -> & Hv & Ht).
  exists verb, target, rest.
  pose proof (split_trailing verb target rest Hv Ht) as (_ & H1 & H2 & _).
  split; [reflexivity|]. split; [exact H1|]. split; [exact H2|].
  intros cl text line st'.
  assert (Hu : JS.toUpperCase verb = "PRIVMSG").
  { rewrite <- Hc.
    change (verb ++ " " ++ target ++ " " ++ rest)
      with (verb ++ String JS.space (target ++ " " ++ rest)).
    now rewrite (commandOf_verb verb _ Hv). }
  pose proof (handleMessage_privmsg st c verb target rest Hv Hu Ht R) as E.
  cbv zeta in E. fold cl text line st' in E.
  split.
  - intros S Hm d Hd Hne. rewrite E, S.
    destruct (memberOf_member _ _ _ Hm) as (ch & M & Hcl).
    rewrite M. apply memberOf_Some in M as [G _].
    rewrite getSocket_broadcastToChannel by eauto.
    rewrite Hcl. apply (has_In Nat.eqb Nat.eqb_spec) in Hd. rewrite Hd. simpl.
    destruct (Nat.eqb_spec d c); [contradiction|]. reflexivity.
  - intros S t F. rewrite E, S, F, getSocket_send, Nat.eqb_refl. reflexivity.
Qed.

Lemma privmsg_text_loses_first_character_witness :
  exists verb target rest,
    "PRIVMSG #test hello world" = verb ++ " " ++ target ++ " " ++ rest
    /\ nth 1 (JS.split "PRIVMSG #test hello world") EmptyString = target
    /\ JS.join (JS.slice 2 (JS.split "PRIVMSG #test hello world")) = rest
    /\ let cl := getClient stTwo 1 in
       let text := match rest with String _ t => t | EmptyString => EmptyString end in
       let line := ":" ++ JS.tpl (nickname cl) ++ "!" ++ JS.tpl (username cl) ++ "@"
                   ++ hostname cl ++ " PRIVMSG " ++ target ++ " :" ++ text in
       let st' := handleMessage stTwo 1 "PRIVMSG #test hello world" in
       (JS.startsWith target "#" = true -> In 1 (membersOf stTwo target) ->
        forall d, In d (membersOf stTwo target) -> d <> 1 ->
                  getSocket st' d = deliver line (getSocket stTwo d))
       /\ (JS.startsWith target "#" = false ->
           forall t, findClientByNickname stTwo target = Some t ->
                     getSocket st' t = deliver line (getSocket stTwo t)).
Proof.
  apply (privmsg_text_loses_first_character stTwo 1 "PRIVMSG #test hello world").
  - apply reachable_run.
  - vm_compute; reflexivity.
  - vm_compute; reflexivity.
  - vm_compute; lia.
Defined.

(** ** Leaving a channel (C7) *)

Lemma startsWith_colon a r : JS.startsWith (String a r) ":" = Ascii.eqb a ":".
Proof.
  change (JS.startsWith (String a r) ":")
    with (if ascii_dec ":" a then String.prefix EmptyString r else false).
  destruct (ascii_dec ":" a) as [<-|Hne].
  - destruct r; reflexivity.
  - destruct (Ascii.eqb_spec a ":"); congruence.
Qed.

(** The notice of a PART line that gives a reason: the reason follows
    [" :"], without the colon the user may have put in front of it. *)
Lemma partLine_reason cl verb n a r :
  noSpace verb = true -> noSpace n = true ->
  partLine cl (JS.split (verb ++ " " ++ n ++ " " ++ String a r))
  = prefixOf cl ++ " PART " ++ n ++ " :" ++ (if Ascii.eqb a ":" then r else String a r).
Proof.
  intros Hv Hn.
  pose proof (split_trailing verb n (String a r) Hv Hn) as (_ & H1 & H2 & _).
  unfold partLine. rewrite H1, H2. cbv zeta. rewrite startsWith_colon. reflexivity.
Qed.

(** The notice of a PART line that gives none. *)
Lemma partLine_bare cl verb n : partLine cl [verb; n] = prefixOf cl ++ " PART " ++ n.
Proof. unfold partLine; simpl. now rewrite append_empty_r. Qed.

Lemma handlePart_parted st c parts :
  reachable st -> 2 <= length parts -> In c (membersOf st (nth 1 parts EmptyString)) ->
  parted st (handlePart st c parts) c (nth 1 parts EmptyString)
    (partLine (getClient st c) parts).
Proof. intros Rch L Hm. exact (handlePart_effect st c parts Rch L Hm). Qed.

(** C7.  In a reachable state, when a member of channel [n] sends a PART
    line for it: the part notice [:nick!user@host PART n], followed when
    the line gives a reason by [" :"] and the reason (less the colon the
    user may have put in front of it), is written once to the socket of
    every member as the membership stood before the removal, the sender
    included (a socket that is not writable drops it), and to no other
    socket; then the sender is out of the member set and [n] is out of
    its joined-channel set; if the sender was the only member, [n] is no
    longer in the directory; otherwise [n] is still there, its member set
    is the old one without the sender, one shorter; no other channel is
    touched. *)
Theorem part_notice_then_removal st c verb n :
  reachable st ->
  noSpace verb = true -> JS.toUpperCase verb = "PART" -> noSpace n = true ->
  In c (membersOf st n) ->
  let cl := getClient st c in
  let who := ":" ++ JS.tpl (nickname cl) ++ "!" ++ JS.tpl (username cl) ++ "@" ++ hostname cl in
  parted st (handleMessage st c (verb ++ " " ++ n)) c n (who ++ " PART " ++ n)
  /\ forall a r,
       parted st (handleMessage st c (verb ++ " " ++ n ++ " " ++ String a r)) c n
         (who ++ " PART " ++ n ++ " :" ++ (if Ascii.eqb a ":" then r else String a r)).
Proof.
  intros Rch Hv Hu Hn Hm cl who.
  split.
  - assert (E : handleMessage st c (verb ++ " " ++ n) = handlePart st c [verb; n]).
    { rewrite handleMessage_dispatch. cbv zeta.
      change (verb ++ " " ++ n) with (verb ++ String JS.space n).
      rewrite (commandOf_verb verb _ Hv), Hu. simpl String.eqb. cbv iota.
      now rewrite split_app_space, (split_token verb Hv), (split_token n Hn). }
    rewrite E.
    pose proof (handlePart_parted st c [verb; n] Rch) as H. simpl in H.
    rewrite partLine_bare in H. apply H; auto.
  - intros a r.
    pose proof (split_trailing verb n (String a r) Hv Hn) as (_ & H1 & _ & H3).
    set (parts := JS.split (verb ++ " " ++ n ++ " " ++ String a r)) in *.
    assert (E : handleMessage st c (verb ++ " " ++ n ++ " " ++ String a r)
                = handlePart st c parts).
    { rewrite handleMessage_dispatch. cbv zeta.
      change (verb ++ " " ++ n ++ " " ++ String a r)
        with (verb ++ String JS.space (n ++ " " ++ String a r)).
      rewrite (commandOf_verb verb _ Hv), Hu. reflexivity. }
    rewrite E.
    pose proof (handlePart_parted st c parts Rch) as H.
    rewrite H1 in H. unfold parts in H at 3. rewrite partLine_reason in H by auto.
    apply H; [lia|exact Hm].
Qed.

Lemma part_notice_then_removal_witness :
  let cl := getClient stTwo 0 in
  let who := ":" ++ JS.tpl (nickname cl) ++ "!" ++ JS.tpl (username cl) ++ "@" ++ hostname cl in
  parted stTwo (handleMessage stTwo 0 ("part" ++ " " ++ "#test")) 0 "#test"
    (who ++ " PART " ++ "#test")
  /\ forall a r,
       parted stTwo (handleMessage stTwo 0 ("part" ++ " " ++ "#test" ++ " " ++ String a r))
         0 "#test"
         (who ++ " PART " ++ "#test" ++ " :" ++ (if Ascii.eqb a ":" then r else String a r)).
Proof.
  apply (part_notice_then_removal stTwo 0 "part" "#test").
  - apply reachable_run.
  - vm_compute; reflexivity.
  - vm_compute; reflexivity.
  - vm_compute; reflexivity.
  - vm_compute; auto.
Defined.
